(** * Twitch shoutout API: a shallow embedding of the request pipeline

    The repository ships three variants of one Express service.  The
    development follows the most complete one ([src/index.js], lines 1-308,
    "PROPER game detection") function by function, and the title-sniffing
    block of the "Enhanced" variant ([src/unnamed/part_000]).

    Conventions of the embedding:
    - a JavaScript string is a [string]; each [ascii] stands for one UTF-16
      code unit below 256, so case folding and trimming are those of
      JavaScript on that range;
    - a JavaScript number is an integer ([Z]) or [NaN]; JSON numbers with a
      fractional part are not represented, and the conversion of strings to
      numbers is left to the host;
    - a parsed JSON body is a [value]; an object is the list of its own
      properties, keys distinct;
    - [async] functions run in a state-and-exception monad over the module
      variables [twitchToken] and [tokenExpiry], a clock and the log of the
      HTTPS requests issued; a rejected promise is a thrown [error]. *)

From Stdlib Require Import String Ascii List ZArith Lia Bool Arith DecimalString.
Import ListNotations.
Set Warnings "-register-all".
Set Implicit Arguments.
Local Open Scope string_scope.

(** ** JavaScript strings *)

Module Js.

Definition dquote : string := String (ascii_of_nat 34) EmptyString.

Definition code (c : ascii) : nat := nat_of_ascii c.

Definition in_range (lo hi : nat) (c : ascii) : bool :=
  (lo <=? code c)%nat && (code c <=? hi)%nat.

(** WhiteSpace and LineTerminator code units below 256:
    TAB, LF, VT, FF, CR, SP, NBSP. *)
Definition is_space (c : ascii) : bool :=
  in_range 9 13 c || (code c =? 32)%nat || (code c =? 160)%nat.

Fixpoint trimStart (s : string) : string :=
  match s with
  | EmptyString => EmptyString
  | String c s' => if is_space c then trimStart s' else s
  end.

Fixpoint trimEnd (s : string) : string :=
  match s with
  | EmptyString => EmptyString
  | String c s' =>
      match trimEnd s' with
      | EmptyString => if is_space c then EmptyString else String c EmptyString
      | t => String c t
      end
  end.

(** [String.prototype.trim] *)
Definition trim (s : string) : string := trimEnd (trimStart s).

(** [s.startsWith(p)] *)
Definition startsWith (s p : string) : bool := prefix p s.

(** [s.substring(1)] *)
Definition substring1 (s : string) : string :=
  match s with
  | EmptyString => EmptyString
  | String _ s' => s'
  end.

(** [s.includes(t)] *)
Fixpoint includes (s t : string) : bool :=
  if prefix t s then true
  else match s with
       | EmptyString => false
       | String _ s' => includes s' t
       end.

(** [toLowerCase] on one code unit: A-Z, and the Latin-1 capitals
    U+00C0..U+00DE except the multiplication sign U+00D7. *)
Definition lower_char (c : ascii) : ascii :=
  if in_range 65 90 c then ascii_of_nat (code c + 32)
  else if in_range 192 222 c && negb (code c =? 215)%nat
       then ascii_of_nat (code c + 32)
       else c.

Fixpoint toLowerCase (s : string) : string :=
  match s with
  | EmptyString => EmptyString
  | String c s' => String (lower_char c) (toLowerCase s')
  end.

Fixpoint all_chars (p : ascii -> bool) (s : string) : bool :=
  match s with
  | EmptyString => true
  | String c s' => p c && all_chars p s'
  end.

Definition is_digit (c : ascii) : bool := in_range 48 57 c.

(** The character class [[a-zA-Z0-9_]]. *)
Definition is_word_char (c : ascii) : bool :=
  in_range 97 122 c || in_range 65 90 c || is_digit c || (code c =? 95)%nat.

(** [/^[a-zA-Z0-9_]{4,25}$/.test(s)] *)
Definition username_re_test (s : string) : bool :=
  (4 <=? String.length s)%nat && (String.length s <=? 25)%nat
  && all_chars is_word_char s.

(** *** The duration pattern
    [/PT(?:(\d+)H)?(?:(\d+)M)?(?:(\d+)S)?/] is not anchored and every group
    after [PT] is optional, so the match starts at the first [PT] and never
    fails after it. *)

(** The longest run of digits at the head of [s], and what follows it. *)
Fixpoint span_digits (s : string) : string * string :=
  match s with
  | EmptyString => (EmptyString, EmptyString)
  | String c s' =>
      if is_digit c
      then let (ds, rest) := span_digits s' in (String c ds, rest)
      else (EmptyString, s)
  end.

(** [(?:(\d+)u)?] at the head of [s]: the greedy [\d+] takes the whole digit
    run, and giving digits back cannot help since the next character would
    be a digit, not [u]; the group then matches the empty string. *)
Definition opt_group (u : ascii) (s : string) : option string * string :=
  match span_digits s with
  | (String d ds, String c rest) =>
      if Ascii.eqb c u then (Some (String d ds), rest) else (None, s)
  | _ => (None, s)
  end.

(** What follows the first occurrence of [PT]. *)
Fixpoint after_PT (s : string) : option string :=
  match s with
  | EmptyString => None
  | String c s' =>
      match s' with
      | String c' rest =>
          if Ascii.eqb c "P" && Ascii.eqb c' "T" then Some rest else after_PT s'
      | EmptyString => None
      end
  end.

(** [s.match(/PT(?:(\d+)H)?(?:(\d+)M)?(?:(\d+)S)?/)]: the three capture
    groups, [None] for a group that did not take part. *)
Definition match_duration (s : string)
  : option (option string * option string * option string) :=
  match after_PT s with
  | None => None
  | Some r =>
      let (h, r1) := opt_group "H" r in
      let (m, r2) := opt_group "M" r1 in
      let (sec, _) := opt_group "S" r2 in
      Some (h, m, sec)
  end.

(** ** Numbers *)

Inductive num := NaN | Num (z : Z).

(** The integers a double holds exactly, from [-2^53] to [2^53]. *)
Definition safe_integer (z : Z) : Prop :=
  (- 9007199254740992 <= z <= 9007199254740992)%Z.

(** Sum, difference and product are those of the integers.  JavaScript
    computes them on doubles, which gives the same number as long as the
    operands and the result are safe integers; statements about the value
    of a result assume that much. *)
Definition num_add (a b : num) : num :=
  match a, b with Num x, Num y => Num (x + y) | _, _ => NaN end.
Definition num_sub (a b : num) : num :=
  match a, b with Num x, Num y => Num (x - y) | _, _ => NaN end.
Definition num_mul (a b : num) : num :=
  match a, b with Num x, Num y => Num (x * y) | _, _ => NaN end.
(** [a < b] and [a > b]: false as soon as one side is [NaN]. *)
Definition num_lt (a b : num) : bool :=
  match a, b with Num x, Num y => (x <? y)%Z | _, _ => false end.
Definition num_gt (a b : num) : bool := num_lt b a.

Definition digit_val (c : ascii) : Z := Z.of_nat (code c - 48).

Fixpoint digits_val (acc : Z) (s : string) : Z :=
  match s with
  | EmptyString => acc
  | String c s' => digits_val (10 * acc + digit_val c) s'
  end.

(** [parseInt(s)] for an [s] that starts with neither white space, a sign
    nor [0x] (the source applies it to a [\d+] capture or to ['0']): the
    value of the leading digit run, [NaN] when there is none. *)
Definition parseInt (s : string) : num :=
  match fst (span_digits s) with
  | EmptyString => NaN
  | ds => Num (digits_val 0 ds)
  end.

(** Number to string, for the integers JavaScript prints digit by digit
    (magnitude below 1e21). *)
Definition string_of_Z (z : Z) : string := NilZero.string_of_int (Z.to_int z).

(** ** Values *)

Inductive value :=
| VUndef
| VNull
| VBool (b : bool)
| VNum (n : Z)
| VStr (s : string)
| VArr (items : list value)
| VObj (fields : list (string * value)).

Inductive error :=
| TypeError
| SyntaxError
| NetworkError
| JsError (msg : string).

Inductive result (A : Type) :=
| Ok (a : A)
| Throw (e : error).

Arguments Throw {A} e.

Definition truthy (v : value) : bool :=
  match v with
  | VUndef | VNull => false
  | VBool b => b
  | VNum n => negb (n =? 0)%Z
  | VStr EmptyString => false
  | VStr _ => true
  | VArr _ | VObj _ => true
  end.

Definition str_truthy (s : string) : bool :=
  match s with EmptyString => false | _ => true end.

(** [a || b] *)
Definition or_else (a b : value) : value := if truthy a then a else b.

(** [v === s] for a string literal [s]. *)
Definition is_str (v : value) (s : string) : bool :=
  match v with VStr t => String.eqb t s | _ => false end.

Fixpoint own (k : string) (fields : list (string * value)) : option value :=
  match fields with
  | [] => None
  | (k', v) :: rest => if String.eqb k k' then Some v else own k rest
  end.

(** [v.k] for the property names the source reads ([data], [id],
    [game_name], [type], [duration], [title], [access_token],
    [expires_in]): none of them is on a built-in prototype, so the result
    is the own property or [undefined]; [null] and [undefined] throw. *)
Definition get (v : value) (k : string) : result value :=
  match v with
  | VUndef | VNull => Throw TypeError
  | VObj fields => match own k fields with Some x => Ok x | None => Ok VUndef end
  | _ => Ok VUndef
  end.

(** [v[0]] *)
Definition index0 (v : value) : result value :=
  match v with
  | VUndef | VNull => Throw TypeError
  | VArr (x :: _) => Ok x
  | VStr (String c _) => Ok (VStr (String c EmptyString))
  | VObj fields => match own "0" fields with Some x => Ok x | None => Ok VUndef end
  | _ => Ok VUndef
  end.

(** ToString, as a template literal applies it.  A parsed object with an own
    [toString] property shadows [Object.prototype.toString] with a value
    that is not callable, and [valueOf] does not yield a primitive: the
    conversion throws.  Arrays go through [join]. *)
Fixpoint to_string (v : value) : option string :=
  match v with
  | VUndef => Some "undefined"
  | VNull => Some "null"
  | VBool true => Some "true"
  | VBool false => Some "false"
  | VNum n => Some (string_of_Z n)
  | VStr s => Some s
  | VArr items =>
      (fix join (l : list value) : option string :=
         match l with
         | [] => Some EmptyString
         | x :: rest =>
             let sx := match x with
                       | VUndef | VNull => Some EmptyString
                       | _ => to_string x
                       end in
             match sx, rest with
             | None, _ => None
             | Some a, [] => Some a
             | Some a, _ :: _ =>
                 match join rest with
                 | Some b => Some (a ++ "," ++ b)
                 | None => None
                 end
             end
         end) items
  | VObj fields =>
      match own "toString" fields with
      | Some _ => None
      | None => Some "[object Object]"
      end
  end.

(** StringToNumber on signed decimal integer literals, surrounded by white
    space; the empty string is 0.  This is the reading the sample
    environments below give to numeric strings; the engine's full
    StringToNumber (hexadecimal, exponents, fractions, Infinity) is a
    parameter of the development. *)
Definition decimal_to_number (s : string) : num :=
  match trim s with
  | EmptyString => Num 0
  | String c ds =>
      if Ascii.eqb c "-" then
        if all_chars is_digit ds && str_truthy ds then Num (- digits_val 0 ds) else NaN
      else if Ascii.eqb c "+" then
        if all_chars is_digit ds && str_truthy ds then Num (digits_val 0 ds) else NaN
      else if all_chars is_digit (String c ds) then Num (digits_val 0 (String c ds))
      else NaN
  end.

Section Coercion.
(** The engine's StringToNumber. *)
Variable StringToNumber : string -> num.

(** ToNumber, as [*] and [>] apply it to an operand.  For an object or
    array the primitive is the one ToString finds (the inherited [valueOf]
    returns the object itself). *)
Definition to_number (v : value) : result num :=
  match v with
  | VUndef => Ok NaN
  | VNull => Ok (Num 0)
  | VBool true => Ok (Num 1)
  | VBool false => Ok (Num 0)
  | VNum n => Ok (Num n)
  | VStr s => Ok (StringToNumber s)
  | VArr _ | VObj _ =>
      match to_string v with
      | Some s => Ok (StringToNumber s)
      | None => Throw TypeError
      end
  end.

End Coercion.

Definition hex_digit (n : nat) : ascii :=
  if (n <? 10)%nat then ascii_of_nat (48 + n) else ascii_of_nat (55 + n).

Definition percent (n : nat) : string :=
  String "%" (String (hex_digit (n / 16)) (String (hex_digit (n mod 16)) EmptyString)).

(** The characters [encodeURIComponent] leaves alone. *)
Definition is_unreserved (c : ascii) : bool :=
  in_range 97 122 c || in_range 65 90 c || is_digit c
  || existsb (Ascii.eqb c) ["-"; "_"; "."; "!"; "~"; "*"; "'"; "("; ")"]%char.

Definition encode_char (c : ascii) : string :=
  if is_unreserved c then String c EmptyString
  else if (code c <? 128)%nat then percent (code c)
  else percent (192 + code c / 64) ++ percent (128 + code c mod 64).

Fixpoint encodeURIComponent (s : string) : string :=
  match s with
  | EmptyString => EmptyString
  | String c s' => encode_char c ++ encodeURIComponent s'
  end.

End Js.

(** ** The host: clock, network, module state *)

Module Host.
Import Js.

(** An HTTPS request as [https.request] receives it. *)
Inductive request :=
| Post (hostname path body : string)
| Get (hostname path authorization client_id : string).

(** What comes back: the [error] event, a body [JSON.parse] rejects, or a
    parsed body.  The status code is never looked at. *)
Inductive outcome :=
| Failed
| Unparseable
| Parsed (body : value).

(** The environment of a run: the reading of the [n]-th call of
    [Date.now()], the outcome of the [n]-th request issued, and the
    engine's StringToNumber. *)
Record host := {
  clock : nat -> Z;
  net : nat -> request -> outcome;
  StringToNumber : string -> num
}.

(** [process.env] as read at start-up. *)
Record config := {
  TWITCH_CLIENT_ID : string;
  TWITCH_CLIENT_SECRET : string
}.

(** The module variables, with the number of clock readings so far and the
    requests issued so far, oldest first. *)
Record world := {
  twitchToken : value;
  tokenExpiry : num;
  ticks : nat;
  log : list request
}.

(** [let twitchToken = null; let tokenExpiry = 0;] *)
Definition initial : world :=
  {| twitchToken := VNull; tokenExpiry := Num 0; ticks := 0; log := [] |}.

Definition M (A : Type) : Type := world -> result A * world.

Definition ret {A} (a : A) : M A := fun w => (Ok a, w).

Definition throw {A} (e : error) : M A := fun w => (Throw e, w).

Definition bind {A B} (c : M A) (k : A -> M B) : M B :=
  fun w =>
    match c w with
    | (Ok a, w') => k a w'
    | (Throw e, w') => (Throw e, w')
    end.

(** [try { c } catch (error) { handler }]: what [c] did to the state before
    it threw stays done. *)
Definition try_catch {A} (c : M A) (handler : error -> M A) : M A :=
  fun w =>
    match c w with
    | (Ok a, w') => (Ok a, w')
    | (Throw e, w') => handler e w'
    end.

Definition lift {A} (r : result A) : M A := fun w => (r, w).

Definition lift_string (o : option string) : M string :=
  match o with
  | Some s => ret s
  | None => throw TypeError
  end.

(** Binding in the pure exception monad [result]. *)
Definition rbind {A B} (r : result A) (k : A -> result B) : result B :=
  match r with
  | Ok a => k a
  | Throw e => Throw e
  end.

Declare Scope js_scope.
Delimit Scope js_scope with js.
Notation "x <- c ;; k" := (bind c (fun x => k))
  (at level 61, c at next level, right associativity) : js_scope.
Notation "x <~ c ;; k" := (rbind c (fun x => k))
  (at level 61, c at next level, right associativity) : js_scope.
Notation "c ;; k" := (bind c (fun _ => k))
  (at level 61, right associativity) : js_scope.

Definition read_token : M value := fun w => (Ok (twitchToken w), w).
Definition read_expiry : M num := fun w => (Ok (tokenExpiry w), w).

Definition set_token (v : value) : M unit :=
  fun w => (Ok tt, {| twitchToken := v; tokenExpiry := tokenExpiry w;
                      ticks := ticks w; log := log w |}).

Definition set_expiry (n : num) : M unit :=
  fun w => (Ok tt, {| twitchToken := twitchToken w; tokenExpiry := n;
                      ticks := ticks w; log := log w |}).

(** [req.end()]: the request goes out; the result is its sequence number,
    under which the host holds the outcome. *)
Definition https_request (r : request) : M nat :=
  fun w => (Ok (length (log w)),
            {| twitchToken := twitchToken w; tokenExpiry := tokenExpiry w;
               ticks := ticks w; log := log w ++ [r] |}).

Section Clock.
Variable h : host.

(** [Date.now()] *)
Definition Date_now : M Z :=
  fun w => (Ok (clock h (ticks w)),
            {| twitchToken := twitchToken w; tokenExpiry := tokenExpiry w;
               ticks := S (ticks w); log := log w |}).

End Clock.

(** The cached credential, the part of the state a refresh may touch. *)
Definition cache (w : world) : value * num := (twitchToken w, tokenExpiry w).

(** Every run of [c] appends to the log, and what it appends satisfies
    [P]. *)
Definition emits {A} (P : request -> Prop) (c : M A) : Prop :=
  forall w, exists new, log (snd (c w)) = (log w ++ new)%list /\ Forall P new.

(** Every run of [c] appends at most [n] requests to the log. *)
Definition sends_at_most {A} (n : nat) (c : M A) : Prop :=
  forall w, exists new,
    log (snd (c w)) = (log w ++ new)%list /\ (List.length new <= n)%nat.

(** [c] keeps the invariant [I] of the state, whether it returns or
    throws. *)
Definition preserves {A} (I : world -> Prop) (c : M A) : Prop :=
  forall w, I w -> I (snd (c w)).

End Host.

(** ** The service of [src/index.js] (lines 1-308) *)

Module Proper.
Import Js Host.
Local Open Scope js_scope.

Section Service.
Variable h : host.
Variable cfg : config.

(** The credential exchange: [postData] sent to [id.twitch.tv]. *)
Definition token_request : request :=
  Post "id.twitch.tv" "/oauth2/token"
       ("client_id=" ++ TWITCH_CLIENT_ID cfg
        ++ "&client_secret=" ++ TWITCH_CLIENT_SECRET cfg
        ++ "&grant_type=client_credentials").

(** [twitchToken && Date.now() < tokenExpiry]; the clock is read only when
    the token is truthy. *)
Definition cache_fresh : M bool :=
  tok <- read_token ;;
  if truthy tok then
    now <- Date_now h ;;
    expiry <- read_expiry ;;
    ret (num_lt (Num now) expiry)
  else ret false.

(** Where a call of [getTwitchToken] stands once its synchronous part has
    run: it has returned the cached token, or it waits for the answer to
    the request it issued. *)
Inductive started :=
| Cached (token : value)
| Pending (seq : nat).

(** [getTwitchToken], up to and including [req.end()] (lines 15-53). *)
Definition getTwitchToken_start : M started :=
  fresh <- cache_fresh ;;
  if fresh then
    tok <- read_token ;; ret (Cached tok)
  else if negb (str_truthy (TWITCH_CLIENT_ID cfg))
          || negb (str_truthy (TWITCH_CLIENT_SECRET cfg))
  then throw (JsError "Twitch credentials not configured")
  else
    seq <- https_request token_request ;;
    ret (Pending seq).

(** The callbacks of the exchange (lines 39-51): [reject] on the [error]
    event; on [end], parse, assign both module variables and resolve, or
    reject with what was thrown on the way. *)
Definition getTwitchToken_end (o : outcome) : M value :=
  match o with
  | Failed => throw NetworkError
  | Unparseable => throw SyntaxError
  | Parsed response =>
      tok <- lift (get response "access_token") ;;
      set_token tok ;;
      now <- Date_now h ;;
      expires_in <- lift (get response "expires_in") ;;
      secs <- lift (to_number (StringToNumber h) expires_in) ;;
      set_expiry (num_sub (num_add (Num now) (num_mul secs (Num 1000))) (Num 60000)) ;;
      read_token
  end.

(** [getTwitchToken], awaited. *)
Definition getTwitchToken : M value :=
  st <- getTwitchToken_start ;;
  match st with
  | Cached tok => ret tok
  | Pending seq => getTwitchToken_end (net h seq token_request)
  end.

(** [makeApiRequest(path)] *)
Definition makeApiRequest (path : string) : M value :=
  token <- getTwitchToken ;;
  bearer <- lift_string (to_string token) ;;
  let r := Get "api.twitch.tv" path ("Bearer " ++ bearer) (TWITCH_CLIENT_ID cfg) in
  seq <- https_request r ;;
  match net h seq r with
  | Failed => throw NetworkError
  | Unparseable => throw SyntaxError
  | Parsed response => ret response
  end.

(** [response.data[0] || null] *)
Definition first_or_null (response : value) : M value :=
  data <- lift (get response "data") ;;
  x <- lift (index0 data) ;;
  ret (or_else x VNull).

Definition getTwitchUser (username : string) : M value :=
  try_catch
    (response <- makeApiRequest ("/helix/users?login=" ++ encodeURIComponent username) ;;
     first_or_null response)
    (fun _ => ret VNull).

Definition getCurrentStream (userId : value) : M value :=
  try_catch
    (id <- lift_string (to_string userId) ;;
     response <- makeApiRequest ("/helix/streams?user_id=" ++ id) ;;
     first_or_null response)
    (fun _ => ret VNull).

Definition getChannelInfo (userId : value) : M value :=
  try_catch
    (id <- lift_string (to_string userId) ;;
     response <- makeApiRequest ("/helix/channels?broadcaster_id=" ++ id) ;;
     first_or_null response)
    (fun _ => ret VNull).

Definition getRecentVideos (userId : value) : M value :=
  try_catch
    (id <- lift_string (to_string userId) ;;
     response <- makeApiRequest ("/helix/videos?user_id=" ++ id ++ "&first=10&type=archive") ;;
     data <- lift (get response "data") ;;
     ret (or_else data (VArr [])))
    (fun _ => ret (VArr [])).

(** [getGameById(gameId)] (lines 131-139); no route calls it. *)
Definition getGameById (gameId : value) : M value :=
  try_catch
    (if negb (truthy gameId) then ret VNull
     else
       id <- lift_string (to_string gameId) ;;
       response <- makeApiRequest ("/helix/games?id=" ++ id) ;;
       first_or_null response)
    (fun _ => ret VNull).

End Service.

(** *** The scan of the archived broadcasts (lines 158-184) *)

Definition skipWords : list string :=
  ["react"; "irl"; "chat"; "talk"; "podcast"; "interview"; "music"].

(** [skipWords.some(word => title.includes(word))] *)
Definition hasSkipWord (title : string) : bool :=
  existsb (fun word => includes title word) skipWords.

(** [x || '0'] for a capture group. *)
Definition group_or_zero (g : option string) : string :=
  match g with
  | Some (String c s) => String c s
  | _ => "0"
  end.

(** [hours * 60 + minutes] of a match. *)
Definition totalMinutes (m : option string * option string * option string) : num :=
  let '(g1, g2, _) := m in
  let hours := parseInt (group_or_zero g1) in
  let minutes := parseInt (group_or_zero g2) in
  num_add (num_mul hours (Num 60)) minutes.

(** The total minutes a duration string parses to; [None] when the pattern
    does not match. *)
Definition parsed_minutes (duration : string) : option num :=
  option_map totalMinutes (match_duration duration).

(** [v.match(re)] and [v.toLowerCase()] exist on strings only. *)
Definition as_string (v : value) : result string :=
  match v with
  | VStr s => Ok s
  | _ => Throw TypeError
  end.

(** A well-formed archive record, as the Helix API returns it. *)
Definition archive (duration title : string) : value :=
  VObj [("title", VStr title); ("duration", VStr duration); ("type", VStr "archive")].

(** The body of the loop for one [video]: [Some g] when it executes
    [return g], [None] when it falls through to the next record. *)
Definition check_video (video : value) : result (option value) :=
  ty <~ get video "type" ;;
  if is_str ty "archive" then
    duration <~ get video "duration" ;;
    if truthy duration then
      d <~ as_string duration ;;
      match match_duration d with
      | Some durationMatch =>
          if num_gt (totalMinutes durationMatch) (Num 30) then
            t <~ get video "title" ;;
            t' <~ as_string t ;;
            let title := toLowerCase t' in
            if negb (hasSkipWord title) then Ok (Some (VStr "games"))
            else Ok None
          else Ok None
      | None => Ok None
      end
    else Ok None
  else Ok None.

(** [for (const video of videos) { ... } return null;] *)
Fixpoint scan (videos : list value) : result value :=
  match videos with
  | [] => Ok VNull
  | video :: rest =>
      r <~ check_video video ;;
      match r with
      | Some g => Ok g
      | None => scan rest
      end
  end.

Fixpoint chars (s : string) : list value :=
  match s with
  | EmptyString => []
  | String c s' => VStr (String c EmptyString) :: chars s'
  end.

(** What [for ... of] iterates over: the elements of an array, the
    characters of a string; anything else is not iterable. *)
Definition iterate (v : value) : result (list value) :=
  match v with
  | VArr items => Ok items
  | VStr s => Ok (chars s)
  | _ => Throw TypeError
  end.

Definition scan_videos (videos : value) : result value :=
  items <~ iterate videos ;;
  scan items.

Section Resolver.
Variable h : host.
Variable cfg : config.

(** [x && x.game_name && x.game_name !== 'Just Chatting'], with the
    [x.game_name] the branch returns. *)
Definition playing (x : value) : M (option value) :=
  if truthy x then
    g <- lift (get x "game_name") ;;
    ret (if truthy g && negb (is_str g "Just Chatting") then Some g else None)
  else ret None.

Definition getLastPlayedGame (userId : value) : M value :=
  try_catch
    (stream <- getCurrentStream h cfg userId ;;
     live <- playing stream ;;
     match live with
     | Some g => ret g
     | None =>
         channelInfo <- getChannelInfo h cfg userId ;;
         last <- playing channelInfo ;;
         match last with
         | Some g => ret g
         | None =>
             videos <- getRecentVideos h cfg userId ;;
             lift (scan_videos videos)
         end
     end)
    (fun _ => ret VNull).

(** *** The shoutout route (lines 194-242) *)

(** [username.trim()], then one leading [@] removed. *)
Definition clean (user : string) : string :=
  let username := trim user in
  if startsWith username "@" then substring1 username else username.

Definition msg_missing : string := "Please provide a username with ?user=USERNAME".

Definition msg_invalid : string :=
  "Invalid username format. Twitch usernames must be 4-25 characters and contain only letters, numbers, and underscores.".

Definition msg_not_found (username : string) : string :=
  "User " ++ dquote ++ username ++ dquote
  ++ " not found on Twitch. Please check the username and try again.".

Definition channel_url (username : string) : string :=
  "https://twitch.tv/" ++ username.

Definition msg_playing (username game : string) : string :=
  "Check out " ++ username ++ ", they are playing " ++ game
  ++ " at " ++ channel_url username ++ "!".

Definition msg_gaming (username : string) : string :=
  "Check out " ++ username ++ ", great gaming content at "
  ++ channel_url username ++ "!".

Definition msg_plain (username : string) : string :=
  "Check out " ++ username ++ " at " ++ channel_url username ++ "!".

(** The message for a resolved [game] (lines 223-233). *)
Definition compose (username : string) (game : value) : M string :=
  if truthy game && negb (is_str game "games") then
    g <- lift_string (to_string game) ;;
    ret (msg_playing username g)
  else if is_str game "games" then ret (msg_gaming username)
  else ret (msg_plain username).

(** [app.get('/', ...)]: from [req.query.user] ([None] when the parameter
    is absent) to the body handed to [res.send]. *)
Definition resolveShoutout (user : option string) : M string :=
  let username := clean (match user with Some s => s | None => EmptyString end) in
  if negb (str_truthy username) then ret msg_missing
  else if negb (username_re_test username) then ret msg_invalid
  else
    try_catch
      (user <- getTwitchUser h cfg username ;;
       if negb (truthy user) then ret (msg_not_found username)
       else
         id <- lift (get user "id") ;;
         game <- getLastPlayedGame id ;;
         compose username game)
      (fun _ => ret (msg_plain username)).

End Resolver.

(** *** The debug route (lines 245-293) *)

(** [s.replace('@', '')]: the first [@], wherever it stands, is removed. *)
Fixpoint remove_first_at (s : string) : string :=
  match s with
  | EmptyString => EmptyString
  | String c s' => if Ascii.eqb c "@" then s' else String c (remove_first_at s')
  end.

(** What the route hands to [res.json]: an object, or [{ error:
    error.message }] for a caught [error], whose message text is the
    engine's. *)
Inductive reply :=
| Json (body : value)
| ErrorMessage (e : error).

(** [v => ({ title: v.title, duration: v.duration, created_at:
    v.created_at, type: v.type })] *)
Definition video_summary (v : value) : result value :=
  title <~ get v "title" ;;
  duration <~ get v "duration" ;;
  created_at <~ get v "created_at" ;;
  type <~ get v "type" ;;
  Ok (VObj [("title", title); ("duration", duration);
            ("created_at", created_at); ("type", type)]).

Fixpoint map_summary (l : list value) : result (list value) :=
  match l with
  | [] => Ok []
  | v :: rest =>
      x <~ video_summary v ;;
      xs <~ map_summary rest ;;
      Ok (x :: xs)
  end.

(** [videos.slice(0, 3).map(...)]: an array is cut and mapped; a string has
    [slice] but its result has no [map]; nothing else has [slice]. *)
Definition recent_videos (videos : value) : result value :=
  match videos with
  | VArr items => xs <~ map_summary (firstn 3 items) ;; Ok (VArr xs)
  | _ => Throw TypeError
  end.

Section Debug.
Variable h : host.
Variable cfg : config.

(** The two sentences of [final_message]. *)
Definition debug_message (cleanUsername : string) (lastGame : value) : result string :=
  if truthy lastGame then
    match to_string lastGame with
    | Some g => Ok (msg_playing cleanUsername g)
    | None => Throw TypeError
    end
  else Ok (msg_plain cleanUsername).

(** [app.get('/debug', ...)]: from [req.query.user] to the argument of
    [res.json]. *)
Definition debugShoutout (user : option string) : M reply :=
  let username := match user with Some s => s | None => EmptyString end in
  if negb (str_truthy username)
  then ret (Json (VObj [("error", VStr "No username provided")]))
  else
    try_catch
      (let cleanUsername := remove_first_at username in
       user <- getTwitchUser h cfg cleanUsername ;;
       if negb (truthy user)
       then ret (Json (VObj [("error", VStr "User not found")]))
       else
         id <- lift (get user "id") ;;
         stream <- getCurrentStream h cfg id ;;
         channelInfo <- getChannelInfo h cfg id ;;
         videos <- getRecentVideos h cfg id ;;
         lastGame <- getLastPlayedGame h cfg id ;;
         login <- lift (get user "login") ;;
         display_name <- lift (get user "display_name") ;;
         current_stream <-
           (if truthy stream then
              game_name <- lift (get stream "game_name") ;;
              title <- lift (get stream "title") ;;
              ret (VObj [("game_name", game_name); ("title", title);
                         ("is_live", VBool true)])
            else ret (VObj [("is_live", VBool false)])) ;;
         channel_info <-
           (if truthy channelInfo then
              game_name <- lift (get channelInfo "game_name") ;;
              title <- lift (get channelInfo "title") ;;
              ret (VObj [("game_name", game_name); ("title", title)])
            else ret VNull) ;;
         recent <- lift (recent_videos videos) ;;
         final_message <- lift (debug_message cleanUsername lastGame) ;;
         ret (Json (VObj [("user", VObj [("login", login);
                                         ("display_name", display_name);
                                         ("id", id)]);
                          ("current_stream", current_stream);
                          ("channel_info", channel_info);
                          ("recent_videos", recent);
                          ("detected_last_game", lastGame);
                          ("final_message", VStr final_message)])))
      (fun e => ret (ErrorMessage e)).

End Debug.

(** *** Vocabulary for the statements *)

(** The three results the route tells apart in what [getLastPlayedGame]
    returns (lines 224-233): a specific category ([game && game !==
    'games']), the generic gaming result ([game === 'games']), and nothing
    known. *)
Inductive resolved :=
| Specific (name : value)
| Generic
| Unknown.

Definition classify (game : value) : resolved :=
  if truthy game && negb (is_str game "games") then Specific game
  else if is_str game "games" then Generic
  else Unknown.

(** [process.env.TWITCH_CLIENT_ID || ''] or the secret is the empty
    string. *)
Definition unconfigured (cfg : config) : Prop :=
  str_truthy (TWITCH_CLIENT_ID cfg) = false
  \/ str_truthy (TWITCH_CLIENT_SECRET cfg) = false.

(** A Helix lookup of the given resource ([users], [streams], [channels],
    [videos]). *)
Definition is_lookup (resource : string) (r : request) : bool :=
  match r with
  | Get _ path _ _ => prefix ("/helix/" ++ resource) path
  | Post _ _ _ => false
  end.

(** The request is the credential exchange. *)
Definition is_exchange (cfg : config) (r : request) : Prop :=
  r = token_request cfg.

(** The request is a GET of a Helix resource at [api.twitch.tv], sent with
    the client identifier. *)
Definition is_helix_get (cfg : config) (r : request) : Prop :=
  exists path auth,
    r = Get "api.twitch.tv" path auth (TWITCH_CLIENT_ID cfg)
    /\ prefix "/helix/" path = true.

(** What a caller of a lookup tests with [!x]: null, or a value that is
    truthy. *)
Definition null_or_truthy (v : value) : Prop := v = VNull \/ truthy v = true.

(** What the service may send upstream. *)
Definition upstream (cfg : config) (r : request) : Prop :=
  is_exchange cfg r \/ is_helix_get cfg r.

(** An exchange that fails in transport, or whose body is not JSON, or is
    the JSON [null]. *)
Definition exchange_fails (o : outcome) : Prop :=
  o = Failed \/ o = Unparseable \/ o = Parsed VNull.

(** The states the module variables can be in: every route reaches them
    through [makeApiRequest] only. *)
Inductive reachable (h : host) (cfg : config) : world -> Prop :=
| reach_initial : reachable h cfg initial
| reach_request (w : world) (path : string) :
    reachable h cfg w -> reachable h cfg (snd (makeApiRequest h cfg path w)).

End Proper.

(** ** Lookups that return their promise without awaiting it

    In the "Simple" and "Enhanced" variants each lookup is
    [try { const token = await getTwitchToken(); return new Promise(...) }
    catch (error) { return null; }].  Only the awaited token is inside the
    guard: an exception in the executor rejects the promise, and a promise
    that is returned, not awaited, settles after the [try] block is left,
    so its rejection reaches the caller. *)

Module Unawaited.
Import Js Host.
Local Open Scope js_scope.

Section Lookup.
Variable h : host.
Variable cfg : config.

(** [try { const token = await getTwitchToken(); return k(token) } catch
    (error) { return fallback; }], the text of [getTwitchToken] being that
    of the first variant. *)
Definition guarded (fallback : value) (k : value -> M value) : M value :=
  t <- try_catch (token <- Proper.getTwitchToken h cfg ;; ret (Some token))
                 (fun _ => ret None) ;;
  match t with
  | Some token => k token
  | None => ret fallback
  end.

(** The promise: the options (path, then the Authorization header) are
    built in the executor, the request goes out, and the [end] handler
    resolves with [extract] of the parsed body or rejects. *)
Definition promise (path : option string) (extract : value -> M value)
           (token : value) : M value :=
  p <- lift_string path ;;
  bearer <- lift_string (to_string token) ;;
  let r := Get "api.twitch.tv" p ("Bearer " ++ bearer) (TWITCH_CLIENT_ID cfg) in
  seq <- https_request r ;;
  match net h seq r with
  | Failed => throw NetworkError
  | Unparseable => throw SyntaxError
  | Parsed response => extract response
  end.

Definition getTwitchUser (username : string) : M value :=
  guarded VNull
    (promise (Some ("/helix/users?login=" ++ encodeURIComponent username))
             Proper.first_or_null).

Definition getCurrentStream (userId : value) : M value :=
  guarded VNull
    (promise (option_map (fun id => "/helix/streams?user_id=" ++ id) (to_string userId))
             Proper.first_or_null).

End Lookup.

End Unawaited.

(** ** The "Simple" variant ([src/index.js], lines 310-491) *)

Module Simple.
Import Js Host.
Local Open Scope js_scope.

Section Service.
Variable h : host.
Variable cfg : config.

Definition getTwitchUser : string -> M value := Unawaited.getTwitchUser h cfg.
Definition getCurrentStream : value -> M value := Unawaited.getCurrentStream h cfg.

(** [stream?.game_name] *)
Definition optional_get (v : value) (k : string) : result value :=
  match v with
  | VUndef | VNull => Ok VUndef
  | _ => get v k
  end.

(** [app.get('/', ...)] (lines 441-481); its sentences are those of the
    first variant. *)
Definition resolveShoutout (user : option string) : M string :=
  let username :=
    Proper.clean (match user with Some s => s | None => EmptyString end) in
  if negb (str_truthy username) then ret Proper.msg_missing
  else if negb (username_re_test username) then ret Proper.msg_invalid
  else
    try_catch
      (user <- getTwitchUser username ;;
       if negb (truthy user) then ret (Proper.msg_not_found username)
       else
         id <- lift (get user "id") ;;
         stream <- getCurrentStream id ;;
         game <- lift (optional_get stream "game_name") ;;
         if truthy game then
           g <- lift_string (to_string game) ;;
           ret (Proper.msg_playing username g)
         else ret (Proper.msg_plain username))
      (fun _ => ret (Proper.msg_plain username)).

End Service.

End Simple.

(** ** The title sniffing of the "Enhanced" variant
    ([src/unnamed/part_000], lines 235-249) *)

Module Enhanced.
Import Js Host.
Local Open Scope js_scope.

Definition commonGames : list string :=
  ["Valorant"; "League of Legends"; "Fortnite"; "Minecraft"; "Among Us";
   "Call of Duty"; "Apex Legends"; "Counter-Strike"; "Overwatch";
   "World of Warcraft"; "Rocket League"; "Fall Guys"; "GTA";
   "Dead by Daylight"; "Escape from Tarkov"].

(** [videos.length] *)
Definition get_length (v : value) : result value :=
  match v with
  | VUndef | VNull => Throw TypeError
  | VArr items => Ok (VNum (Z.of_nat (List.length items)))
  | VStr s => Ok (VNum (Z.of_nat (String.length s)))
  | VObj fields => match own "length" fields with Some x => Ok x | None => Ok VUndef end
  | _ => Ok VUndef
  end.

(** [for (const gameCheck of commonGames) { if (...) { game = gameCheck;
    break; } }], with [game] null before the loop. *)
Fixpoint first_game (title : value) (games : list string) : result value :=
  match games with
  | [] => Ok VNull
  | gameCheck :: rest =>
      t <~ Proper.as_string title ;;
      if includes (toLowerCase t) (toLowerCase gameCheck) then Ok (VStr gameCheck)
      else first_game title rest
  end.

(** [videos[0].title], as the block reads it. *)
Definition recent_title (videos : value) : result value :=
  recentVideo <~ index0 videos ;;
  get recentVideo "title".

Section Sniff.
Variable h : host.

(** The value of [game] after the block, for the [videos] that
    [getRecentVideos] resolved to. *)
Definition sniff (videos : value) : result value :=
  len <~ get_length videos ;;
  n <~ to_number (StringToNumber h) len ;;
  if num_gt n (Num 0) then
    title <~ recent_title videos ;;
    if truthy title then first_game title commonGames
    else Ok VNull
  else Ok VNull.

End Sniff.

(** *** The rest of the variant (lines 57-268) *)

(** [list[Math.floor(Math.random() * list.length)]]: [draw] stands for the
    random number, and the index it gives is [draw] modulo the length, so
    that every index below the length, and no other, can come out. *)
Definition pick (draw : nat) (l : list string) : string :=
  nth (draw mod List.length l) l EmptyString.

Definition baseMessages (username : string) : list string :=
  ["Go check out " ++ username;
   "Show some love to " ++ username;
   "Give " ++ username ++ " a follow";
   "Check out the amazing " ++ username;
   "Support " ++ username].

Definition liveMessages (baseMessage game : string) : list string :=
  [baseMessage ++ ", they're currently live playing " ++ game ++ "!";
   baseMessage ++ " - they're streaming " ++ game ++ " right now!";
   baseMessage ++ ", live now with " ++ game ++ "!"].

Definition recentMessages (baseMessage game : string) : list string :=
  [baseMessage ++ ", they recently played " ++ game ++ "!";
   baseMessage ++ ", check out their " ++ game ++ " content!";
   baseMessage ++ " - great " ++ game ++ " streamer!"].

(** [getRandomMessage(username, game, isLive, followerCount)] (lines
    169-197), for the two random numbers it may draw; the follower count is
    not used. *)
Definition getRandomMessage (draw1 draw2 : nat) (username : string)
           (game : value) (isLive : bool) : result string :=
  let baseMessage := pick draw1 (baseMessages username) in
  if isLive && truthy game then
    match to_string game with
    | Some g => Ok (pick draw2 (liveMessages baseMessage g))
    | None => Throw TypeError
    end
  else if truthy game then
    match to_string game with
    | Some g => Ok (pick draw2 (recentMessages baseMessage g))
    | None => Throw TypeError
    end
  else Ok (baseMessage ++ ", great content creator!").

Definition fallbacks (username : string) : list string :=
  ["Check out " ++ username ++ " at https://twitch.tv/" ++ username ++ "!";
   "Show some love to " ++ username ++ " at https://twitch.tv/" ++ username ++ "!";
   "Give " ++ username ++ " a follow at https://twitch.tv/" ++ username ++ "!"].

Section Service.
Variable h : host.
Variable cfg : config.

Definition getTwitchUser : string -> M value := Unawaited.getTwitchUser h cfg.
Definition getCurrentStream : value -> M value := Unawaited.getCurrentStream h cfg.

(** [resolve(response.data || [])] *)
Definition data_or_empty (response : value) : M value :=
  data <- lift (get response "data") ;;
  ret (or_else data (VArr [])).

Definition getRecentVideos (userId : value) : M value :=
  Unawaited.guarded h cfg (VArr [])
    (Unawaited.promise h cfg
       (option_map (fun id => "/helix/videos?user_id=" ++ id ++ "&first=5&type=archive")
                   (to_string userId))
       data_or_empty).

(** [game] and [isLive] as lines 226-250 leave them. *)
Definition detect (id : value) : M (value * bool) :=
  stream <- getCurrentStream id ;;
  if truthy stream then
    game <- lift (get stream "game_name") ;;
    ret (game, true)
  else
    videos <- getRecentVideos id ;;
    game <- lift (sniff h videos) ;;
    ret (game, false).

(** [app.get('/', ...)] (lines 200-268), for the random numbers drawn for
    the base phrase, for the variant and for the fallback. *)
Definition resolveShoutout (draw1 draw2 draw3 : nat) (user : option string)
  : M string :=
  let username :=
    Proper.clean (match user with Some s => s | None => EmptyString end) in
  if negb (str_truthy username) then ret Proper.msg_missing
  else if negb (username_re_test username) then ret Proper.msg_invalid
  else
    try_catch
      (user <- getTwitchUser username ;;
       if negb (truthy user) then ret (Proper.msg_not_found username)
       else
         id <- lift (get user "id") ;;
         found <- detect id ;;
         message <- lift (getRandomMessage draw1 draw2 username (fst found) (snd found)) ;;
         ret (message ++ " at https://twitch.tv/" ++ username))
      (fun _ => ret (pick draw3 (fallbacks username))).

End Service.

End Enhanced.

(** ** Calls of [getTwitchToken] in flight together

    Node runs one callback at a time.  A call of [getTwitchToken] is two
    callbacks: its synchronous part, which ends with the request sent, and
    the [end] or [error] handler of its response.  Two calls overlap when
    the second one starts before the answer to the first has arrived. *)

Module EventLoop.
Import Js Host Proper.

Inductive event :=
| Invoke (caller : nat)
| Deliver (caller : nat).

Inductive status :=
| Waiting (seq : nat)
| Settled (r : result value).

Record loop := {
  mem : world;
  calls : list (nat * status)
}.

Fixpoint status_of (c : nat) (l : list (nat * status)) : option status :=
  match l with
  | [] => None
  | (c', s) :: rest => if Nat.eqb c c' then Some s else status_of c rest
  end.

Section Loop.
Variable h : host.
Variable cfg : config.

Definition invoke (c : nat) (s : loop) : loop :=
  match getTwitchToken_start h cfg (mem s) with
  | (Ok (Cached tok), w) => {| mem := w; calls := (c, Settled (Ok tok)) :: calls s |}
  | (Ok (Pending seq), w) => {| mem := w; calls := (c, Waiting seq) :: calls s |}
  | (Throw e, w) => {| mem := w; calls := (c, Settled (Throw e)) :: calls s |}
  end.

Definition deliver (c : nat) (s : loop) : loop :=
  match status_of c (calls s) with
  | Some (Waiting seq) =>
      let (r, w) := getTwitchToken_end h (net h seq (token_request cfg)) (mem s) in
      {| mem := w; calls := (c, Settled r) :: calls s |}
  | _ => s
  end.

Definition step (s : loop) (e : event) : loop :=
  match e with
  | Invoke c => invoke c s
  | Deliver c => deliver c s
  end.

Definition run (s : loop) (evs : list event) : loop := fold_left step evs s.

End Loop.

(** The credential exchanges among the requests issued. *)
Definition exchanges (l : list request) : nat :=
  List.length (filter (fun r => match r with Post _ _ _ => true | Get _ _ _ _ => false end) l).

End EventLoop.

(** ** Sample environments *)

Module Samples.
Import Js Host.

Definition cfg_ok : config :=
  {| TWITCH_CLIENT_ID := "client-id"; TWITCH_CLIENT_SECRET := "client-secret" |}.

Definition cfg_empty : config :=
  {| TWITCH_CLIENT_ID := EmptyString; TWITCH_CLIENT_SECRET := EmptyString |}.

(** [{"data": [{...fields}]}] *)
Definition envelope (fields : list (string * value)) : outcome :=
  Parsed (VObj [("data", VArr [VObj fields])]).

Definition token_ok : outcome :=
  Parsed (VObj [("access_token", VStr "token"); ("expires_in", VNum 3600)]).

(** The identity endpoint answers an error document, as it does for a bad
    secret. *)
Definition token_refused : outcome :=
  Parsed (VObj [("status", VNum 400); ("message", VStr "invalid client secret")]).

(** A channel that is live in the category [game]. *)
Definition live_net (game : string) (seq : nat) (r : request) : outcome :=
  match r with
  | Post _ _ _ => token_ok
  | Get _ path _ _ =>
      if prefix "/helix/users" path then envelope [("id", VStr "42"); ("login", VStr "shroud")]
      else if prefix "/helix/streams" path then envelope [("game_name", VStr game)]
      else Failed
  end.

Definition live_host (game : string) : host :=
  {| clock := fun n => (1000000 + Z.of_nat n)%Z; net := live_net game;
     StringToNumber := decimal_to_number |}.

(** A channel that is offline, whose stored category is Just Chatting and
    whose one archived broadcast ran for 45 minutes. *)
Definition offline_net (seq : nat) (r : request) : outcome :=
  match r with
  | Post _ _ _ => token_ok
  | Get _ path _ _ =>
      if prefix "/helix/users" path then envelope [("id", VStr "42")]
      else if prefix "/helix/streams" path then Parsed (VObj [("data", VArr [])])
      else if prefix "/helix/channels" path
      then envelope [("game_name", VStr "Just Chatting")]
      else envelope [("type", VStr "archive"); ("duration", VStr "PT45M");
                     ("title", VStr "Late night Minecraft build")]
  end.

Definition offline_host : host :=
  {| clock := fun n => (1000000 + Z.of_nat n)%Z; net := offline_net;
     StringToNumber := decimal_to_number |}.

(** A channel that is offline and whose stored category is Minecraft. *)
Definition archive_net (seq : nat) (r : request) : outcome :=
  match r with
  | Post _ _ _ => token_ok
  | Get _ path _ _ =>
      if prefix "/helix/users" path then envelope [("id", VStr "42")]
      else if prefix "/helix/streams" path then Parsed (VObj [("data", VArr [])])
      else if prefix "/helix/channels" path
      then envelope [("game_name", VStr "Minecraft")]
      else Failed
  end.

Definition archive_host : host :=
  {| clock := fun n => (1000000 + Z.of_nat n)%Z; net := archive_net;
     StringToNumber := decimal_to_number |}.

(** What the debug route reports for the offline channel with the
    45-minute broadcast. *)
Definition offline_report : list (string * value) :=
  [("user", VObj [("login", VUndef); ("display_name", VUndef); ("id", VStr "42")]);
   ("current_stream", VObj [("is_live", VBool false)]);
   ("channel_info", VObj [("game_name", VStr "Just Chatting"); ("title", VUndef)]);
   ("recent_videos",
    VArr [VObj [("title", VStr "Late night Minecraft build");
                ("duration", VStr "PT45M"); ("created_at", VUndef);
                ("type", VStr "archive")]]);
   ("detected_last_game", VStr "games");
   ("final_message",
    VStr "Check out quietviewer, they are playing games at https://twitch.tv/quietviewer!")].

(** The identity endpoint answers, the Helix endpoints are unreachable. *)
Definition flaky_host : host :=
  {| clock := fun n => (1000000 + Z.of_nat n)%Z;
     net := fun _ r => match r with Post _ _ _ => token_ok | Get _ _ _ _ => Failed end;
     StringToNumber := decimal_to_number |}.

(** Nothing upstream answers. *)
Definition dead_host : host :=
  {| clock := fun n => (5000 + Z.of_nat n)%Z; net := fun _ _ => Failed;
     StringToNumber := decimal_to_number |}.

(** The identity endpoint refuses the exchange. *)
Definition refusing_host : host :=
  {| clock := fun n => (5000 + Z.of_nat n)%Z; net := fun _ _ => token_refused;
     StringToNumber := decimal_to_number |}.

(** A token that expired at time 1000 is cached. *)
Definition stale_world : world :=
  {| twitchToken := VStr "old"; tokenExpiry := Num 1000; ticks := 0; log := [] |}.

(** The identity endpoint hands out a token without saying how long it
    lasts. *)
Definition forgetful_host : host :=
  {| clock := fun n => (5000 + Z.of_nat n)%Z;
     net := fun _ _ => Parsed (VObj [("access_token", VStr "token")]);
     StringToNumber := decimal_to_number |}.

(** No token is ever cached (it comes without [expires_in]), the channel
    is offline, its stored category is Just Chatting and its one archived
    broadcast is short. *)
Definition restless_net (seq : nat) (r : request) : outcome :=
  match r with
  | Post _ _ _ => Parsed (VObj [("access_token", VStr "token")])
  | Get _ path _ _ =>
      if prefix "/helix/users" path then envelope [("id", VStr "42")]
      else if prefix "/helix/streams" path then Parsed (VObj [("data", VArr [])])
      else if prefix "/helix/channels" path
      then envelope [("game_name", VStr "Just Chatting")]
      else envelope [("type", VStr "archive"); ("duration", VStr "PT5M");
                     ("title", VStr "Highlights")]
  end.

Definition restless_host : host :=
  {| clock := fun n => (1000000 + Z.of_nat n)%Z; net := restless_net;
     StringToNumber := decimal_to_number |}.

(** A token that is good until time 9000000 is cached. *)
Definition cached_world : world :=
  {| twitchToken := VStr "token"; tokenExpiry := Num 9000000; ticks := 0; log := [] |}.

End Samples.

(** * Properties *)

Import Js Host.
Unset Implicit Arguments.

(** ** Strings *)

Section StringFacts.


Lemma append_inj_l (a b c : string) : a ++ b = a ++ c -> b = c.
Proof.
  induction a as [|x a IH]; simpl; intros E; [exact E | injection E; auto].
Qed.

Lemma prefix_append (t b : string) : prefix t (t ++ b) = true.
Proof.
  induction t as [|x t IH]; simpl.
  - now destruct b.
  - destruct (ascii_dec x x) as [_|N]; [exact IH | now elim N].
Qed.

Lemma includes_prefix (s t : string) : prefix t s = true -> includes s t = true.
Proof. intros H. destruct s; cbn [includes]; now rewrite H. Qed.

Lemma includes_append (a t b : string) : includes (a ++ t ++ b) t = true.
Proof.
  induction a as [|x a IH].
  - change (includes (t ++ b) t = true). apply includes_prefix, prefix_append.
  - change (includes (String x (a ++ t ++ b)) t = true). cbn [includes].
    destruct (prefix t (String x (a ++ t ++ b))); [reflexivity | exact IH].
Qed.

Lemma span_digits_all (ds : string) :
  all_chars is_digit ds = true -> span_digits ds = (ds, EmptyString).
Proof.
  induction ds as [|c ds IH]; simpl; [reflexivity |].
  intros H. apply andb_prop in H. destruct H as [Hc Hd].
  now rewrite Hc, (IH Hd).
Qed.




Lemma parseInt_digits (ds : string) :
  all_chars is_digit ds = true -> str_truthy ds = true ->
  parseInt ds = Num (digits_val 0 ds).
Proof.
  intros Hd Hn. unfold parseInt. rewrite (span_digits_all _ Hd).
  destruct ds; [discriminate | reflexivity].
Qed.

End StringFacts.

(** ** The scan of the archived broadcasts *)

Section ScanFacts.
Import Proper.

Lemma get_total (v : value) (k : string) (x : value) :
  get v k = Ok x -> forall k', exists y, get v k' = Ok y.
Proof.
  intros H k'. destruct v; simpl in *; try discriminate; eauto.
  destruct (own k' fields); eauto.
Qed.

Lemma scan_skip (video : value) (rest : list value) :
  check_video video = Ok None -> scan (video :: rest) = scan rest.
Proof. intros H. simpl. now rewrite H. Qed.

Lemma scan_return (video g : value) (rest : list value) :
  check_video video = Ok (Some g) -> scan (video :: rest) = Ok g.
Proof. intros H. simpl. now rewrite H. Qed.

(** What a record that makes the loop return looks like. *)
Lemma check_video_returns (video g : value) :
  check_video video = Ok (Some g) ->
  g = VStr "games"
  /\ exists ty d n t,
       get video "type" = Ok ty /\ is_str ty "archive" = true
       /\ get video "duration" = Ok (VStr d)
       /\ parsed_minutes d = Some (Num n) /\ (30 < n)%Z
       /\ get video "title" = Ok (VStr t)
       /\ hasSkipWord (toLowerCase t) = false.
Proof.
  unfold check_video, rbind, parsed_minutes.
  destruct (get video "type") as [ty|e] eqn:Ety; [|discriminate].
  destruct (is_str ty "archive") eqn:Earch; [|discriminate].
  destruct (get video "duration") as [dv|e] eqn:Ed; [|discriminate].
  destruct (truthy dv); [|discriminate].
  destruct dv as [| | | |d| |]; simpl; try discriminate.
  destruct (match_duration d) as [m|] eqn:Em; [|discriminate]. simpl.
  destruct (totalMinutes m) as [|n] eqn:Etot; simpl; [discriminate|].
  destruct (30 <? n)%Z eqn:Egt; [|discriminate].
  destruct (get video "title") as [tv|e] eqn:Et; [|discriminate].
  destruct tv as [| | | |t| |]; simpl; try discriminate.
  destruct (hasSkipWord (toLowerCase t)) eqn:Eskip; simpl; [discriminate|].
  intros H. injection H as <-. split; [reflexivity|].
  exists ty, d, n, t. apply Z.ltb_lt in Egt.
  repeat split; auto. rewrite Em. cbn [option_map]. now rewrite Etot.
Qed.

(** A record whose duration is a string of at most 30 parsed minutes, or
    one the pattern does not match, falls through. *)
Lemma check_video_short (video : value) (d : string) :
  get video "duration" = Ok (VStr d) ->
  (parsed_minutes d = None
   \/ exists n, parsed_minutes d = Some (Num n) /\ (n <= 30)%Z) ->
  check_video video = Ok None.
Proof.
  intros Hd Hshort. unfold check_video, rbind.
  destruct (get_total _ _ _ Hd "type") as [ty ->].
  destruct (is_str ty "archive"); [|reflexivity].
  rewrite Hd. destruct (truthy (VStr d)); [|reflexivity]. simpl.
  unfold parsed_minutes in Hshort.
  destruct (match_duration d) as [m|]; [|reflexivity]. simpl in Hshort.
  destruct Hshort as [H | (n & H & Hn)]; [discriminate|].
  injection H as ->. simpl.
  destruct (Z.ltb_spec 30 n); [lia | reflexivity].
Qed.

(** A record with a string duration and a title holding a skip word falls
    through. *)
Lemma check_video_denied (video : value) (d t : string) :
  get video "duration" = Ok (VStr d) ->
  get video "title" = Ok (VStr t) ->
  hasSkipWord (toLowerCase t) = true ->
  check_video video = Ok None.
Proof.
  intros Hd Ht Hskip. unfold check_video, rbind.
  destruct (get_total _ _ _ Hd "type") as [ty ->].
  destruct (is_str ty "archive"); [|reflexivity].
  rewrite Hd. destruct (truthy (VStr d)); [|reflexivity]. cbn [as_string].
  destruct (match_duration d) as [m|]; [|reflexivity].
  destruct (num_gt (totalMinutes m) (Num 30)); [|reflexivity].
  rewrite Ht. cbn [as_string]. now rewrite Hskip.
Qed.

Lemma scan_outcome (videos : list value) :
  scan videos = Ok VNull \/ scan videos = Ok (VStr "games")
  \/ exists e, scan videos = Throw e.
Proof.
  induction videos as [|video rest IH]; [now left|].
  destruct (check_video video) as [[g|]|e] eqn:E.
  - right; left. rewrite (scan_return _ _ _ E).
    now destruct (check_video_returns _ _ E) as [-> _].
  - now rewrite (scan_skip _ _ E).
  - right; right. exists e. simpl. now rewrite E.
Qed.

End ScanFacts.

(** ** A seconds component does not reach the total *)

Section SecondsFacts.
Import Proper.


Lemma all_chars_append (p : ascii -> bool) (a b : string) :
  all_chars p (a ++ b) = all_chars p a && all_chars p b.
Proof.
  induction a as [|c a IH]; simpl; [reflexivity|].
  now rewrite IH, andb_assoc.
Qed.

Lemma after_PT_cons (c c' : ascii) (rest : string) :
  after_PT (String c (String c' rest))
  = if Ascii.eqb c "P" && Ascii.eqb c' "T" then Some rest
    else after_PT (String c' rest).
Proof. reflexivity. Qed.




(** The digit run and what follows it make up the string. *)
Lemma span_digits_split (r : string) :
  let (ds, rest) := span_digits r in
  r = ds ++ rest /\ all_chars is_digit ds = true
  /\ match rest with
     | EmptyString => True
     | String c _ => is_digit c = false
     end.
Proof.
  induction r as [|c r IH]; simpl; [auto|].
  destruct (is_digit c) eqn:Hc.
  - destruct (span_digits r) as [ds rest]. destruct IH as (-> & Hd & Hr).
    simpl. rewrite Hc, Hd. auto.
  - simpl. auto.
Qed.




End SecondsFacts.

(** ** The title sniffing of the Enhanced variant *)

Section SniffFacts.
Import Enhanced.

Lemma first_game_outcome (title : value) (games : list string) :
  first_game title games = Ok VNull
  \/ (exists e, first_game title games = Throw e)
  \/ exists name t,
       first_game title games = Ok (VStr name) /\ In name games
       /\ title = VStr t
       /\ includes (toLowerCase t) (toLowerCase name) = true.
Proof.
  induction games as [|gameCheck rest IH]; [now left|].
  simpl. destruct title as [| | | |t| |]; simpl;
    try (right; left; eexists; reflexivity).
  destruct (includes (toLowerCase t) (toLowerCase gameCheck)) eqn:E.
  - right; right. exists gameCheck, t. auto.
  - destruct IH as [H | [H | (name & t' & H & Hin & Ht & Hinc)]]; auto.
    right; right. exists name, t'. auto.
Qed.

End SniffFacts.

(** C6: whatever the list of archived broadcasts, the scan of [index.js]
    yields nothing, the generic ["games"], or an exception that
    [getLastPlayedGame] turns into nothing; and the title sniffing of the
    Enhanced variant yields a name only when that name is on its allowlist
    and the lower-cased title of the most recent record contains it,
    lower-cased.  No game name is ever made up from a title. *)
Theorem C6_no_game_name_without_allowlist_match :
  forall (h : host) (videos : value),
    (Proper.scan_videos videos = Ok VNull
     \/ Proper.scan_videos videos = Ok (VStr "games")
     \/ exists e, Proper.scan_videos videos = Throw e)
    /\ (Enhanced.sniff h videos = Ok VNull
        \/ (exists e, Enhanced.sniff h videos = Throw e)
        \/ exists name t,
             Enhanced.sniff h videos = Ok (VStr name)
             /\ In name Enhanced.commonGames
             /\ Enhanced.recent_title videos = Ok (VStr t)
             /\ includes (toLowerCase t) (toLowerCase name) = true).
Proof.
  intros h videos. split.
  - unfold Proper.scan_videos, rbind.
    destruct (Proper.iterate videos) as [items|e].
    + apply scan_outcome.
    + right; right. now exists e.
  - unfold Enhanced.sniff, rbind.
    destruct (Enhanced.get_length videos) as [len|e];
      [|right; left; now exists e].
    destruct (to_number (StringToNumber h) len) as [n|e];
      [|right; left; now exists e].
    destruct (num_gt n (Num 0)); [|now left].
    destruct (Enhanced.recent_title videos) as [title|e];
      [|right; left; now exists e].
    destruct (truthy title); [|now left].
    destruct (first_game_outcome title Enhanced.commonGames)
      as [H | [H | (name & t & H & Hin & -> & Hinc)]]; auto.
    right; right. exists name, t. auto.
Qed.

(** C7: in the scan, a record whose duration parses to fewer than 30 total
    minutes (so any record with duration ["PT15M"]) falls through to the
    next record whatever its title is, and a record whose lower-cased title
    contains one of react, irl, chat, talk, podcast, interview, music (so
    any record titled ["Just chatting with friends"]) falls through
    whatever its duration string is. *)
Theorem C7_short_and_denylisted_records_are_skipped :
  forall (video : value) (rest : list value) (d : string),
    get video "duration" = Ok (VStr d) ->
    ((exists n, Proper.parsed_minutes d = Some (Num n) /\ (n < 30)%Z)
     \/ d = "PT15M"
     \/ exists t, get video "title" = Ok (VStr t)
          /\ ((exists word,
                 In word ["react"; "irl"; "chat"; "talk"; "podcast"; "interview"; "music"]
                 /\ includes (toLowerCase t) word = true)
              \/ t = "Just chatting with friends")) ->
    Proper.check_video video = Ok None
    /\ Proper.scan (video :: rest) = Proper.scan rest.
Proof.
  intros video rest d Hd Hrule.
  assert (H : Proper.check_video video = Ok None).
  { destruct Hrule as [(n & Hn & Hlt) | [-> | (t & Ht & Hword)]].
    - apply (check_video_short _ _ Hd). right. exists n. split; [exact Hn | lia].
    - apply (check_video_short _ _ Hd). right. exists 15%Z. split; [reflexivity | lia].
    - apply (check_video_denied _ _ _ Hd Ht).
      destruct Hword as [(word & Hin & Hinc) | ->]; [|reflexivity].
      unfold Proper.hasSkipWord. apply existsb_exists. exists word. auto. }
  split; [exact H | now apply scan_skip].
Qed.

Lemma C7_witness :
  Proper.scan [Proper.archive "PT15M" "Minecraft marathon"; Proper.archive "PT2H" "Elden Ring"]
  = Proper.scan [Proper.archive "PT2H" "Elden Ring"]
  /\ Proper.scan [Proper.archive "PT3H" "Just chatting with friends"]
     = Proper.scan [].
Proof.
  split.
  - apply (C7_short_and_denylisted_records_are_skipped
             (Proper.archive "PT15M" "Minecraft marathon") _ "PT15M" eq_refl).
    right; left; reflexivity.
  - apply (C7_short_and_denylisted_records_are_skipped
             (Proper.archive "PT3H" "Just chatting with friends") [] "PT3H" eq_refl).
    right; right. exists "Just chatting with friends".
    split; [reflexivity | right; reflexivity].
Defined.



(** ** Effects: which requests a computation issues *)

Section Emits.

Variable P : request -> Prop.

Lemma emits_silent {A} (c : M A) :
  (forall w, log (snd (c w)) = log w) -> emits P c.
Proof.
  intros H w. exists []. now rewrite app_nil_r, H.
Qed.

Lemma emits_ret {A} (a : A) : emits P (ret a).
Proof. now apply emits_silent. Qed.

Lemma emits_throw {A} (e : error) : emits P (@throw A e).
Proof. now apply emits_silent. Qed.

Lemma emits_lift {A} (r : result A) : emits P (lift r).
Proof. now apply emits_silent. Qed.

Lemma emits_lift_string (o : option string) : emits P (lift_string o).
Proof. destruct o; [apply emits_ret | apply emits_throw]. Qed.

Lemma emits_https_request (r : request) : P r -> emits P (https_request r).
Proof. intros H w. exists [r]. simpl. auto. Qed.

Lemma emits_bind {A B} (c : M A) (k : A -> M B) :
  emits P c -> (forall a, emits P (k a)) -> emits P (bind c k).
Proof.
  intros Hc Hk w. unfold bind.
  destruct (Hc w) as (l1 & E1 & F1).
  destruct (c w) as [[a|e] w1]; simpl in E1.
  - destruct (Hk a w1) as (l2 & E2 & F2).
    exists (l1 ++ l2)%list. rewrite E2, E1, app_assoc.
    split; [reflexivity | now apply Forall_app].
  - exists l1. auto.
Qed.

Lemma emits_try_catch {A} (c : M A) (handler : error -> M A) :
  emits P c -> (forall e, emits P (handler e)) -> emits P (try_catch c handler).
Proof.
  intros Hc Hh w. unfold try_catch.
  destruct (Hc w) as (l1 & E1 & F1).
  destruct (c w) as [[a|e] w1]; simpl in E1.
  - exists l1. auto.
  - destruct (Hh e w1) as (l2 & E2 & F2).
    exists (l1 ++ l2)%list. rewrite E2, E1, app_assoc.
    split; [reflexivity | now apply Forall_app].
Qed.

End Emits.

Lemma emits_weaken {A} (P Q : request -> Prop) (c : M A) :
  (forall r, P r -> Q r) -> emits P c -> emits Q c.
Proof.
  intros HPQ Hc w. destruct (Hc w) as (l & E & F).
  exists l. split; [exact E | now apply (Forall_impl Q HPQ)].
Qed.

Ltac emits_step :=
  first
    [ apply emits_ret | apply emits_throw | apply emits_lift
    | apply emits_lift_string
    | apply emits_silent; intros; reflexivity
    | apply emits_bind; [| intros]
    | apply emits_try_catch; [| intros] ].

Section ServiceEffects.
Import Proper.
Variable h : host.
Variable cfg : config.

Lemma getTwitchToken_emits : emits (is_exchange cfg) (getTwitchToken h cfg).
Proof.
  unfold getTwitchToken, getTwitchToken_start, cache_fresh.
  apply emits_bind.
  - apply emits_bind.
    + apply emits_bind; [emits_step|]. intros tok.
      destruct (truthy tok); repeat emits_step.
    + intros fresh. destruct fresh; [repeat emits_step|].
      destruct (negb _ || negb _); [emits_step|].
      apply emits_bind; [|intros; emits_step].
      now apply emits_https_request.
  - intros [tok|seq]; [emits_step|].
    unfold getTwitchToken_end.
    destruct (net h seq (token_request cfg)); repeat emits_step.
Qed.

(** [makeApiRequest path] issues at most one exchange and at most one
    request for [path]. *)
Lemma makeApiRequest_emits (path : string) :
  emits (fun r => is_exchange cfg r
                  \/ exists auth, r = Get "api.twitch.tv" path auth (TWITCH_CLIENT_ID cfg))
        (makeApiRequest h cfg path).
Proof.
  unfold makeApiRequest.
  apply emits_bind.
  - apply (emits_weaken (is_exchange cfg)); [auto | apply getTwitchToken_emits].
  - intros token. apply emits_bind; [emits_step|]. intros bearer.
    apply emits_bind.
    + apply emits_https_request. right. eauto.
    + intros seq. destruct (net h seq _); emits_step.
Qed.

Lemma getCurrentStream_emits (userId : value) :
  emits (fun r => is_lookup "channels" r = false /\ is_lookup "videos" r = false)
        (getCurrentStream h cfg userId).
Proof.
  unfold getCurrentStream, first_or_null.
  apply emits_try_catch; [|intros; emits_step].
  apply emits_bind; [emits_step|]. intros id.
  apply emits_bind; [|intros; repeat emits_step].
  eapply emits_weaken; [|apply makeApiRequest_emits].
  intros r [-> | (auth & ->)]; split; reflexivity.
Qed.

End ServiceEffects.

(** ** The resolver *)

Section ResolverFacts.
Import Proper.
Variable h : host.
Variable cfg : config.

Lemma try_catch_total {A} (c : M A) (d : A) (w : world) :
  exists a w', try_catch c (fun _ => ret d) w = (Ok a, w').
Proof.
  unfold try_catch, ret. destruct (c w) as [[a|e] w']; eauto.
Qed.

Lemma get_truthy (v : value) (k : string) :
  truthy v = true -> exists x, get v k = Ok x.
Proof.
  destruct v; simpl; try discriminate; eauto.
  destruct (own k fields); eauto.
Qed.

Lemma get_string_truthy (v : value) (k s : string) :
  get v k = Ok (VStr s) -> truthy v = true.
Proof. destruct v; simpl; try discriminate; auto. Qed.

(** The lookups and the resolver catch everything: they always return. *)
Lemma getTwitchUser_total (username : string) (w : world) :
  exists u w1, getTwitchUser h cfg username w = (Ok u, w1).
Proof. apply try_catch_total. Qed.

Lemma getLastPlayedGame_total (userId : value) (w : world) :
  exists g w1, getLastPlayedGame h cfg userId w = (Ok g, w1).
Proof. apply try_catch_total. Qed.

(** The first step of the chain: a live category other than Just Chatting
    is returned at once, in the state the stream lookup left. *)
Lemma getLastPlayedGame_live (userId stream g : value) (w w1 : world) :
  getCurrentStream h cfg userId w = (Ok stream, w1) ->
  truthy stream = true ->
  get stream "game_name" = Ok g ->
  truthy g = true ->
  is_str g "Just Chatting" = false ->
  getLastPlayedGame h cfg userId w = (Ok g, w1).
Proof.
  intros Hs Ht Hg Hgt Hjc.
  unfold getLastPlayedGame, try_catch, bind. rewrite Hs.
  unfold playing, bind, lift, ret. rewrite Ht, Hg, Hgt, Hjc. reflexivity.
Qed.

End ResolverFacts.

(** [classify] reads the result as the route does: each of its three
    cases is one branch of [compose]. *)
Lemma compose_classify (username : string) (game : value) :
  Proper.compose username game
  = match Proper.classify game with
    | Proper.Specific name =>
        bind (lift_string (to_string name))
             (fun g => ret (Proper.msg_playing username g))
    | Proper.Generic => ret (Proper.msg_gaming username)
    | Proper.Unknown => ret (Proper.msg_plain username)
    end.
Proof.
  unfold Proper.compose, Proper.classify.
  destruct (truthy game && negb (is_str game "games")); [reflexivity|].
  now destruct (is_str game "games").
Qed.

(** C1, as the code has it: whatever the upstream answers, when the
    live-stream lookup yields a snapshot whose category is present (truthy)
    and is not ["Just Chatting"], [getLastPlayedGame] returns that
    category, in the state the stream lookup left, and the requests issued
    on the way contain no channel-info lookup and no archived-broadcast
    lookup.  What it returns is a specific result unless the category is
    named ["games"]: that name is the marker of the generic result. *)
Theorem C1_live_category_short_circuits :
  forall (h : host) (cfg : config) (userId stream g : value) (w w1 : world),
    Proper.getCurrentStream h cfg userId w = (Ok stream, w1) ->
    truthy stream = true ->
    get stream "game_name" = Ok g ->
    truthy g = true ->
    is_str g "Just Chatting" = false ->
    Proper.getLastPlayedGame h cfg userId w = (Ok g, w1)
    /\ Proper.classify g
       = (if is_str g "games" then Proper.Generic else Proper.Specific g)
    /\ exists new,
         log w1 = (log w ++ new)%list
         /\ Forall (fun r => Proper.is_lookup "channels" r = false
                             /\ Proper.is_lookup "videos" r = false) new.
Proof.
  intros h cfg userId stream g w w1 Hs Ht Hg Hgt Hjc. split; [|split].
  - now apply (getLastPlayedGame_live h cfg userId stream).
  - unfold Proper.classify. rewrite Hgt. now destruct (is_str g "games").
  - destruct (getCurrentStream_emits h cfg userId w) as (new & E & F).
    rewrite Hs in E. now exists new.
Qed.

Lemma C1_witness :
  Proper.getLastPlayedGame (Samples.live_host "Valorant") Samples.cfg_ok
    (VStr "42") initial
  = (Ok (VStr "Valorant"),
     snd (Proper.getCurrentStream (Samples.live_host "Valorant") Samples.cfg_ok
            (VStr "42") initial))
  /\ Proper.classify (VStr "Valorant") = Proper.Specific (VStr "Valorant").
Proof.
  destruct (C1_live_category_short_circuits
              (Samples.live_host "Valorant") Samples.cfg_ok (VStr "42")
              (VObj [("game_name", VStr "Valorant")]) (VStr "Valorant") initial
              _ eq_refl eq_refl eq_refl eq_refl eq_refl) as (H1 & H2 & _).
  split; [exact H1 | exact H2].
Defined.

(** C1 as stated fails: a live stream whose category is named ["games"]
    meets every condition, and what [getLastPlayedGame] returns for it is
    the generic result, not a specific one. *)
Lemma C1_counterexample :
  let h := Samples.live_host "games" in
  let stream := VObj [("game_name", VStr "games")] in
  Proper.getCurrentStream h Samples.cfg_ok (VStr "42") initial
  = (Ok stream, snd (Proper.getCurrentStream h Samples.cfg_ok (VStr "42") initial))
  /\ truthy stream = true
  /\ get stream "game_name" = Ok (VStr "games")
  /\ truthy (VStr "games") = true
  /\ is_str (VStr "games") "Just Chatting" = false
  /\ fst (Proper.getLastPlayedGame h Samples.cfg_ok (VStr "42") initial)
     = Ok (VStr "games")
  /\ Proper.classify (VStr "games") = Proper.Generic
  /\ Proper.classify (VStr "games") <> Proper.Specific (VStr "games")
  /\ fst (Proper.resolveShoutout h Samples.cfg_ok (Some "shroud") initial)
     = Ok (Proper.msg_gaming "shroud").
Proof. repeat split. discriminate. Qed.

(** ** The shoutout route *)

Section RouteFacts.
Import Proper.
Variable h : host.
Variable cfg : config.

Lemma includes_skip (a s t : string) :
  includes s t = true -> includes (a ++ s) t = true.
Proof.
  intros H. induction a as [|x a IH]; [exact H|].
  change (includes (String x (a ++ s)) t = true). cbn [includes].
  destruct (prefix t (String x (a ++ s))); [reflexivity | exact IH].
Qed.

Lemma includes_head (t b : string) : includes (t ++ b) t = true.
Proof. apply includes_prefix, prefix_append. Qed.

Lemma msg_playing_url (username game : string) :
  includes (msg_playing username game) (channel_url username) = true.
Proof.
  unfold msg_playing. do 5 apply includes_skip. apply includes_head.
Qed.

Lemma msg_gaming_url (username : string) :
  includes (msg_gaming username) (channel_url username) = true.
Proof.
  unfold msg_gaming. do 3 apply includes_skip. apply includes_head.
Qed.

Lemma msg_plain_url (username : string) :
  includes (msg_plain username) (channel_url username) = true.
Proof.
  unfold msg_plain. do 3 apply includes_skip. apply includes_head.
Qed.

Lemma valid_truthy (username : string) :
  username_re_test username = true -> str_truthy username = true.
Proof.
  unfold username_re_test. destruct username; [discriminate | reflexivity].
Qed.

(** Past validation, the route is its [try] block. *)
Lemma resolveShoutout_valid (user : string) :
  username_re_test (clean user) = true ->
  resolveShoutout h cfg (Some user)
  = try_catch
      (bind (getTwitchUser h cfg (clean user)) (fun u =>
         if negb (truthy u) then ret (msg_not_found (clean user))
         else bind (lift (get u "id")) (fun id =>
              bind (getLastPlayedGame h cfg id) (fun game =>
              compose (clean user) game))))
      (fun _ => ret (msg_plain (clean user))).
Proof.
  intros Hv. unfold resolveShoutout.
  now rewrite Hv, (valid_truthy _ Hv).
Qed.

(** What the route sends once the user and the game are known. *)
Lemma resolveShoutout_found (user : string) (u id game : value) (w w1 w2 : world) :
  username_re_test (clean user) = true ->
  getTwitchUser h cfg (clean user) w = (Ok u, w1) ->
  truthy u = true ->
  get u "id" = Ok id ->
  getLastPlayedGame h cfg id w1 = (Ok game, w2) ->
  resolveShoutout h cfg (Some user) w
  = match compose (clean user) game w2 with
    | (Ok m, w') => (Ok m, w')
    | (Throw _, w') => (Ok (msg_plain (clean user)), w')
    end.
Proof.
  intros Hv Hu Ht Hid Hg. rewrite (resolveShoutout_valid _ Hv).
  unfold try_catch, bind at 1. rewrite Hu, Ht. cbn [negb].
  unfold bind at 1, lift. rewrite Hid.
  unfold bind. rewrite Hg.
  destruct (compose (clean user) game w2) as [[m|e] w']; reflexivity.
Qed.

Lemma compose_games (username : string) (w : world) :
  compose username (VStr "games") w = (Ok (msg_gaming username), w).
Proof. reflexivity. Qed.

(** Every sentence [compose] makes, and the fallback, hold the channel
    URL. *)
Lemma compose_url (username : string) (game : value) (w : world) :
  exists m w',
    match compose username game w with
    | (Ok m, w') => (Ok m, w')
    | (Throw _, w') => (Ok (msg_plain username), w')
    end = (Ok m, w')
    /\ m <> EmptyString
    /\ includes m (channel_url username) = true.
Proof.
  unfold compose.
  destruct (truthy game && negb (is_str game "games")).
  - unfold bind, lift_string. destruct (to_string game) as [g|]; cbn.
    + exists (msg_playing username g), w.
      repeat split; [discriminate | apply msg_playing_url].
    + exists (msg_plain username), w.
      repeat split; [discriminate | apply msg_plain_url].
  - destruct (is_str game "games"); cbn.
    + exists (msg_gaming username), w.
      repeat split; [discriminate | apply msg_gaming_url].
    + exists (msg_plain username), w.
      repeat split; [discriminate | apply msg_plain_url].
Qed.

End RouteFacts.

Section ConfigurationFacts.
Import Proper.
Variable h : host.
Variable cfg : config.
Hypothesis Hcfg : unconfigured cfg.

Lemma getTwitchToken_unconfigured (w : world) :
  truthy (twitchToken w) = false ->
  getTwitchToken h cfg w
  = (Throw (JsError "Twitch credentials not configured"), w).
Proof.
  intros Htok.
  unfold getTwitchToken, getTwitchToken_start, cache_fresh, bind, read_token.
  rewrite Htok. cbn [ret].
  destruct Hcfg as [H | H]; rewrite H; cbn [negb orb]; [reflexivity|].
  now rewrite orb_true_r.
Qed.

Lemma makeApiRequest_unconfigured (path : string) (w : world) :
  truthy (twitchToken w) = false ->
  makeApiRequest h cfg path w
  = (Throw (JsError "Twitch credentials not configured"), w).
Proof.
  intros Htok. unfold makeApiRequest, bind.
  now rewrite (getTwitchToken_unconfigured _ Htok).
Qed.

(** Without credentials the module variables never leave their initial
    values. *)
Lemma reachable_unconfigured (w : world) : reachable h cfg w -> w = initial.
Proof.
  induction 1 as [|w path _ ->]; [reflexivity|].
  now rewrite makeApiRequest_unconfigured.
Qed.

Lemma getTwitchUser_unconfigured (username : string) (w : world) :
  truthy (twitchToken w) = false ->
  getTwitchUser h cfg username w = (Ok VNull, w).
Proof.
  intros Htok. unfold getTwitchUser, try_catch, bind.
  now rewrite (makeApiRequest_unconfigured _ _ Htok).
Qed.

Lemma getCurrentStream_unconfigured (userId : value) (w : world) :
  truthy (twitchToken w) = false ->
  getCurrentStream h cfg userId w = (Ok VNull, w).
Proof.
  intros Htok. unfold getCurrentStream, try_catch, bind, lift_string.
  destruct (to_string userId); [|reflexivity].
  cbn [ret]. now rewrite (makeApiRequest_unconfigured _ _ Htok).
Qed.

Lemma getChannelInfo_unconfigured (userId : value) (w : world) :
  truthy (twitchToken w) = false ->
  getChannelInfo h cfg userId w = (Ok VNull, w).
Proof.
  intros Htok. unfold getChannelInfo, try_catch, bind, lift_string.
  destruct (to_string userId); [|reflexivity].
  cbn [ret]. now rewrite (makeApiRequest_unconfigured _ _ Htok).
Qed.

Lemma getRecentVideos_unconfigured (userId : value) (w : world) :
  truthy (twitchToken w) = false ->
  getRecentVideos h cfg userId w = (Ok (VArr []), w).
Proof.
  intros Htok. unfold getRecentVideos, try_catch, bind, lift_string.
  destruct (to_string userId); [|reflexivity].
  cbn [ret]. now rewrite (makeApiRequest_unconfigured _ _ Htok).
Qed.

End ConfigurationFacts.

(** The route answers "not found" whenever the user lookup yields null. *)
Lemma resolveShoutout_not_found (h : host) (cfg : config) (user : string)
      (u : value) (w w1 : world) :
  username_re_test (Proper.clean user) = true ->
  Proper.getTwitchUser h cfg (Proper.clean user) w = (Ok u, w1) ->
  truthy u = false ->
  Proper.resolveShoutout h cfg (Some user) w
  = (Ok (Proper.msg_not_found (Proper.clean user)), w1).
Proof.
  intros Hv Hu Ht. rewrite (resolveShoutout_valid _ _ _ Hv).
  unfold try_catch, bind. now rewrite Hu, Ht.
Qed.

(** C8: with the client identifier or the client secret unset, in every
    state the service can be in, [getTwitchToken] throws the configuration
    error, every lookup swallows it (null, or the empty list for the
    broadcasts), and for every syntactically valid username the route sends
    the "not found" message, the one it sends whenever the user lookup
    yields null, so also for a user that does not exist. *)
Theorem C8_configuration_failure_reads_as_not_found :
  forall (h : host) (cfg : config) (user : string) (userId : value) (w : world),
    Proper.unconfigured cfg ->
    Proper.reachable h cfg w ->
    username_re_test (Proper.clean user) = true ->
    Proper.getTwitchToken h cfg w
    = (Throw (JsError "Twitch credentials not configured"), w)
    /\ Proper.getTwitchUser h cfg (Proper.clean user) w = (Ok VNull, w)
    /\ Proper.getCurrentStream h cfg userId w = (Ok VNull, w)
    /\ Proper.getChannelInfo h cfg userId w = (Ok VNull, w)
    /\ Proper.getRecentVideos h cfg userId w = (Ok (VArr []), w)
    /\ Proper.resolveShoutout h cfg (Some user) w
       = (Ok (Proper.msg_not_found (Proper.clean user)), w)
    /\ forall h' cfg' w' w1,
         Proper.getTwitchUser h' cfg' (Proper.clean user) w' = (Ok VNull, w1) ->
         fst (Proper.resolveShoutout h' cfg' (Some user) w')
         = Ok (Proper.msg_not_found (Proper.clean user)).
Proof.
  intros h cfg user userId w Hcfg Hreach Hv.
  rewrite (reachable_unconfigured h cfg Hcfg w Hreach).
  assert (Htok : truthy (twitchToken initial) = false) by reflexivity.
  repeat split.
  - now apply getTwitchToken_unconfigured.
  - now apply getTwitchUser_unconfigured.
  - now apply getCurrentStream_unconfigured.
  - now apply getChannelInfo_unconfigured.
  - now apply getRecentVideos_unconfigured.
  - apply (resolveShoutout_not_found h cfg user VNull); auto.
    now apply getTwitchUser_unconfigured.
  - intros h' cfg' w' w1 Hu.
    now rewrite (resolveShoutout_not_found h' cfg' user VNull w' w1 Hv Hu).
Qed.

Lemma C8_witness :
  Proper.resolveShoutout Samples.dead_host Samples.cfg_empty (Some "@ninja")
    (snd (Proper.makeApiRequest Samples.dead_host Samples.cfg_empty
            "/helix/users?login=shroud" initial))
  = (Ok (Proper.msg_not_found "ninja"),
     snd (Proper.makeApiRequest Samples.dead_host Samples.cfg_empty
            "/helix/users?login=shroud" initial)).
Proof.
  apply (C8_configuration_failure_reads_as_not_found
           Samples.dead_host Samples.cfg_empty "@ninja" VNull).
  - left; reflexivity.
  - apply Proper.reach_request, Proper.reach_initial.
  - reflexivity.
Defined.

(** C9: ["games"] is the in-band marker of the generic result.  Whenever
    the resolved category is the string ["games"], also when that is the
    name of the category of a live stream, the route sends the generic
    gaming sentence, which differs from the specific-game sentence naming
    ["games"]. *)
Theorem C9_games_is_the_generic_marker :
  forall (h : host) (cfg : config) (user : string) (u id : value)
         (w w1 w2 : world),
    username_re_test (Proper.clean user) = true ->
    Proper.getTwitchUser h cfg (Proper.clean user) w = (Ok u, w1) ->
    truthy u = true ->
    get u "id" = Ok id ->
    (Proper.getLastPlayedGame h cfg id w1 = (Ok (VStr "games"), w2)
     \/ exists stream,
          Proper.getCurrentStream h cfg id w1 = (Ok stream, w2)
          /\ get stream "game_name" = Ok (VStr "games")) ->
    Proper.resolveShoutout h cfg (Some user) w
    = (Ok (Proper.msg_gaming (Proper.clean user)), w2)
    /\ Proper.msg_gaming (Proper.clean user)
       <> Proper.msg_playing (Proper.clean user) "games".
Proof.
  intros h cfg user u id w w1 w2 Hv Hu Ht Hid Hgame. split.
  - assert (Hg : Proper.getLastPlayedGame h cfg id w1 = (Ok (VStr "games"), w2)).
    { destruct Hgame as [Hg | (stream & Hs & Hn)]; [exact Hg|].
      apply (getLastPlayedGame_live h cfg id stream); auto.
      now apply (get_string_truthy stream "game_name" "games"). }
    now rewrite (resolveShoutout_found h cfg user u id _ w w1 w2 Hv Hu Ht Hid Hg).
  - unfold Proper.msg_gaming, Proper.msg_playing. intros E.
    apply append_inj_l, append_inj_l in E. discriminate E.
Qed.

Lemma C9_witness :
  Proper.resolveShoutout (Samples.live_host "games") Samples.cfg_ok
    (Some "shroud") initial
  = (Ok "Check out shroud, great gaming content at https://twitch.tv/shroud!",
     snd (Proper.resolveShoutout (Samples.live_host "games") Samples.cfg_ok
            (Some "shroud") initial)).
Proof.
  refine (proj1 (C9_games_is_the_generic_marker
                   (Samples.live_host "games") Samples.cfg_ok "shroud"
                   (VObj [("id", VStr "42"); ("login", VStr "shroud")]) (VStr "42")
                   initial _ _ eq_refl eq_refl eq_refl eq_refl _)).
  right. exists (VObj [("game_name", VStr "games")]). split; reflexivity.
Defined.

(** C2, as the code has it: for every username that passes validation and
    whatever the upstream answers, the route sends a non-empty message.
    When the user lookup yields a user the message contains the channel
    URL; when it yields nothing (no such user, or any upstream failure, all
    of them swallowed to null) the message is the "not found" sentence. *)
Theorem C2_valid_username_message :
  forall (h : host) (cfg : config) (user : string) (w : world),
    username_re_test (Proper.clean user) = true ->
    exists u w1 m w',
      Proper.getTwitchUser h cfg (Proper.clean user) w = (Ok u, w1)
      /\ Proper.resolveShoutout h cfg (Some user) w = (Ok m, w')
      /\ m <> EmptyString
      /\ if truthy u
         then includes m (Proper.channel_url (Proper.clean user)) = true
         else m = Proper.msg_not_found (Proper.clean user) /\ w' = w1.
Proof.
  intros h cfg user w Hv.
  destruct (getTwitchUser_total h cfg (Proper.clean user) w) as (u & w1 & Hu).
  exists u, w1. destruct (truthy u) eqn:Ht.
  - destruct (get_truthy u "id" Ht) as [id Hid].
    destruct (getLastPlayedGame_total h cfg id w1) as (game & w2 & Hg).
    destruct (compose_url (Proper.clean user) game w2) as (m & w' & Hm & Hne & Hurl).
    exists m, w'. split; [exact Hu|]. split; [|split; assumption].
    now rewrite (resolveShoutout_found h cfg user u id game w w1 w2 Hv Hu Ht Hid Hg).
  - exists (Proper.msg_not_found (Proper.clean user)), w1.
    split; [exact Hu|]. split; [|split; [discriminate | split; reflexivity]].
    now apply (resolveShoutout_not_found h cfg user u).
Qed.

Lemma C2_witness :
  exists u w1 m w',
    Proper.getTwitchUser (Samples.live_host "Valorant") Samples.cfg_ok
      (Proper.clean " @shroud ") initial = (Ok u, w1)
    /\ Proper.resolveShoutout (Samples.live_host "Valorant") Samples.cfg_ok
         (Some " @shroud ") initial = (Ok m, w')
    /\ m <> EmptyString
    /\ if truthy u
       then includes m (Proper.channel_url (Proper.clean " @shroud ")) = true
       else m = Proper.msg_not_found (Proper.clean " @shroud ") /\ w' = w1.
Proof.
  apply (C2_valid_username_message
           (Samples.live_host "Valorant") Samples.cfg_ok " @shroud " initial).
  reflexivity.
Defined.

(** C2 as stated fails: with nothing upstream answering, the valid username
    [ninja] gets the "not found" sentence, which does not contain
    [https://twitch.tv/ninja]. *)
Lemma C2_counterexample :
  username_re_test (Proper.clean "ninja") = true
  /\ fst (Proper.resolveShoutout Samples.dead_host Samples.cfg_ok (Some "ninja") initial)
     = Ok (Proper.msg_not_found "ninja")
  /\ includes (Proper.msg_not_found "ninja") (Proper.channel_url "ninja") = false.
Proof. repeat split; vm_compute; reflexivity. Qed.

(** C5, as the code has it: for every input whose cleaned form fails the
    pattern, the route sends one of two fixed messages, the prompt for a
    username when the cleaned form is empty (or the parameter is absent) and
    the format message otherwise; it throws nothing, issues no request and
    leaves the state as it was. *)
Theorem C5_invalid_username_message :
  forall (h : host) (cfg : config) (user : option string) (w : world),
    let username :=
      Proper.clean (match user with Some s => s | None => EmptyString end) in
    username_re_test username = false ->
    Proper.resolveShoutout h cfg user w
    = (Ok (if str_truthy username then Proper.msg_invalid else Proper.msg_missing), w).
Proof.
  intros h cfg user w username Hv. unfold Proper.resolveShoutout.
  fold username. rewrite Hv. now destruct (str_truthy username).
Qed.

Lemma C5_witness :
  Proper.resolveShoutout Samples.dead_host Samples.cfg_ok (Some " @ab ") initial
  = (Ok Proper.msg_invalid, initial)
  /\ Proper.resolveShoutout Samples.dead_host Samples.cfg_ok None initial
     = (Ok Proper.msg_missing, initial).
Proof.
  split.
  - apply (C5_invalid_username_message
             Samples.dead_host Samples.cfg_ok (Some " @ab ") initial).
    reflexivity.
  - apply (C5_invalid_username_message Samples.dead_host Samples.cfg_ok None initial).
    reflexivity.
Defined.

(** C5 as stated fails: no single message answers every invalid input; [@]
    and [ab] both fail the pattern and get different messages. *)
Lemma C5_counterexample :
  ~ exists m : string,
      forall user : string,
        username_re_test (Proper.clean user) = false ->
        fst (Proper.resolveShoutout Samples.dead_host Samples.cfg_ok (Some user) initial)
        = Ok m.
Proof.
  intros [m H].
  pose proof (H "@" eq_refl) as H1.
  pose proof (H "ab" eq_refl) as H2.
  vm_compute in H1, H2. rewrite <- H1 in H2. discriminate H2.
Qed.

(** ** The token cache *)

Section TokenFacts.
Import Proper.
Variable h : host.
Variable cfg : config.

(** Looking at the cache changes neither the cache nor the log. *)
Lemma cache_fresh_frame (w : world) :
  cache (snd (cache_fresh h w)) = cache w
  /\ log (snd (cache_fresh h w)) = log w.
Proof.
  unfold cache_fresh, bind, read_token, read_expiry, Date_now, ret.
  destruct (truthy (twitchToken w)); split; reflexivity.
Qed.

Lemma cache_fresh_ok (w : world) :
  exists b, fst (cache_fresh h w) = Ok b.
Proof.
  unfold cache_fresh, bind, read_token, read_expiry, Date_now, ret.
  destruct (truthy (twitchToken w)); eexists; reflexivity.
Qed.

(** A failing exchange settles the call with an exception and touches
    neither module variable. *)
Lemma getTwitchToken_end_fails (o : outcome) (w : world) :
  exchange_fails o ->
  cache (snd (getTwitchToken_end h o w)) = cache w
  /\ exists e, fst (getTwitchToken_end h o w) = Throw e.
Proof.
  intros [-> | [-> | ->]]; split; try reflexivity; eexists; reflexivity.
Qed.

(** The synchronous part of a call that finds no valid token, with both
    credentials set: one exchange goes out, the cache stays. *)
Lemma getTwitchToken_start_stale (w : world) :
  str_truthy (TWITCH_CLIENT_ID cfg) = true ->
  str_truthy (TWITCH_CLIENT_SECRET cfg) = true ->
  fst (cache_fresh h w) = Ok false ->
  exists w',
    getTwitchToken_start h cfg w = (Ok (Pending (length (log w))), w')
    /\ log w' = (log w ++ [token_request cfg])%list
    /\ cache w' = cache w
    /\ ticks w' = ticks (snd (cache_fresh h w)).
Proof.
  intros Hid Hsec Hstale.
  destruct (cache_fresh_frame w) as [Hc Hl].
  unfold getTwitchToken_start, bind.
  destruct (cache_fresh h w) as [r w0]. simpl in Hstale, Hc, Hl. subst r.
  rewrite Hid, Hsec. cbn [negb orb].
  unfold https_request, ret. cbv beta iota. rewrite Hl.
  eexists. split; [reflexivity|]. cbn [log ticks snd].
  repeat split. exact Hc.
Qed.

End TokenFacts.

(** C3, as the code has it: whatever the cache holds, when the exchange
    fails in transport, or its body is not JSON, or is the JSON null, a call
    of [getTwitchToken] leaves [twitchToken] and [tokenExpiry] as they
    were; it either answers from the cache without any request, or fails
    with an exception. *)
Theorem C3_failed_exchange_keeps_cache :
  forall (h : host) (cfg : config) (w : world),
    Proper.exchange_fails (net h (length (log w)) (Proper.token_request cfg)) ->
    cache (snd (Proper.getTwitchToken h cfg w)) = cache w
    /\ ((fst (Proper.getTwitchToken h cfg w) = Ok (twitchToken w)
         /\ log (snd (Proper.getTwitchToken h cfg w)) = log w)
        \/ exists e, fst (Proper.getTwitchToken h cfg w) = Throw e).
Proof.
  intros h cfg w Hfail.
  destruct (cache_fresh_frame h w) as [Hc Hl].
  unfold Proper.getTwitchToken, Proper.getTwitchToken_start, bind.
  destruct (Proper.cache_fresh h w) as [[fresh|e] w0] eqn:Ef;
    simpl in Hc, Hl.
  - destruct fresh.
    + unfold read_token, ret. simpl. split; [exact Hc|]. left.
      unfold cache in Hc. injection Hc as -> _. auto.
    + destruct (negb _ || negb _).
      * simpl. split; [exact Hc|]. right. eexists; reflexivity.
      * unfold https_request, ret. cbv beta iota. rewrite Hl.
        match goal with
        | |- context [Proper.getTwitchToken_end h ?o ?w1] =>
            destruct (getTwitchToken_end_fails h o w1 Hfail) as (Hc1 & e & He)
        end.
        split; [now rewrite Hc1 | right; now exists e].
  - destruct (cache_fresh_ok h w) as [b Hb]. rewrite Ef in Hb. discriminate Hb.
Qed.

Lemma C3_witness :
  cache (snd (Proper.getTwitchToken Samples.dead_host Samples.cfg_ok Samples.stale_world))
  = (VStr "old", Num 1000)
  /\ fst (Proper.getTwitchToken Samples.dead_host Samples.cfg_ok Samples.stale_world)
     = Throw NetworkError.
Proof.
  pose proof (C3_failed_exchange_keeps_cache
                Samples.dead_host Samples.cfg_ok Samples.stale_world
                (or_introl eq_refl)) as [Hc _].
  split; [exact Hc | reflexivity].
Defined.

(** C3 as stated fails: the identity endpoint answers an error document,
    which parses; the call does not fail, it resolves with [undefined], and
    the cached token and expiry are overwritten with [undefined] and
    [NaN]. *)
Lemma C3_counterexample :
  Proper.getTwitchToken Samples.refusing_host Samples.cfg_ok Samples.stale_world
  = (Ok VUndef,
     {| twitchToken := VUndef; tokenExpiry := NaN; ticks := 2;
        log := [Proper.token_request Samples.cfg_ok] |})
  /\ cache (snd (Proper.getTwitchToken Samples.refusing_host Samples.cfg_ok
                   Samples.stale_world))
     <> cache Samples.stale_world.
Proof. split; [reflexivity | discriminate]. Qed.

(** ** Overlapping calls *)

Section OverlapFacts.
Import Proper EventLoop.
Variable h : host.
Variable cfg : config.

Lemma invoke_stale (c : nat) (s : loop) :
  str_truthy (TWITCH_CLIENT_ID cfg) = true ->
  str_truthy (TWITCH_CLIENT_SECRET cfg) = true ->
  fst (cache_fresh h (mem s)) = Ok false ->
  calls (invoke h cfg c s) = (c, Waiting (length (log (mem s)))) :: calls s
  /\ log (mem (invoke h cfg c s)) = (log (mem s) ++ [token_request cfg])%list
  /\ cache (mem (invoke h cfg c s)) = cache (mem s).
Proof.
  intros Hid Hsec Hstale.
  destruct (getTwitchToken_start_stale h cfg (mem s) Hid Hsec Hstale)
    as (w' & E & Hl & Hc & _).
  unfold invoke. rewrite E. auto.
Qed.

Lemma deliver_waiting (c seq : nat) (s : loop) :
  status_of c (calls s) = Some (Waiting seq) ->
  status_of c (calls (deliver h cfg c s))
  = Some (Settled (fst (getTwitchToken_end h (net h seq (token_request cfg)) (mem s))))
  /\ forall c', c' <> c ->
       status_of c' (calls (deliver h cfg c s)) = status_of c' (calls s).
Proof.
  intros Hw. unfold deliver. rewrite Hw.
  destruct (getTwitchToken_end h (net h seq (token_request cfg)) (mem s)) as [r w'].
  cbn [calls status_of fst]. rewrite Nat.eqb_refl. split; [reflexivity|].
  intros c' Hne. now rewrite (proj2 (Nat.eqb_neq c' c) Hne).
Qed.

End OverlapFacts.

(** C4, as the code has it: there is no single flight.  When two calls of
    [getTwitchToken] overlap and both find no valid cached token (both
    credentials set), each one issues its own credential exchange, so two
    requests go out, and each call is settled by the answer to its own
    request. *)
Theorem C4_overlapping_calls_each_exchange :
  forall (h : host) (cfg : config) (w : world) (a b : nat),
    let s0 := {| EventLoop.mem := w; EventLoop.calls := [] |} in
    let s2 := EventLoop.run h cfg s0 [EventLoop.Invoke a; EventLoop.Invoke b] in
    let s3 := EventLoop.run h cfg s2 [EventLoop.Deliver a] in
    let s4 := EventLoop.run h cfg s3 [EventLoop.Deliver b] in
    let n := length (log w) in
    str_truthy (TWITCH_CLIENT_ID cfg) = true ->
    str_truthy (TWITCH_CLIENT_SECRET cfg) = true ->
    a <> b ->
    fst (Proper.cache_fresh h w) = Ok false ->
    fst (Proper.cache_fresh h (EventLoop.mem (EventLoop.invoke h cfg a s0))) = Ok false ->
    log (EventLoop.mem s2)
    = (log w ++ [Proper.token_request cfg; Proper.token_request cfg])%list
    /\ EventLoop.status_of a (EventLoop.calls s2) = Some (EventLoop.Waiting n)
    /\ EventLoop.status_of b (EventLoop.calls s2) = Some (EventLoop.Waiting (S n))
    /\ EventLoop.status_of a (EventLoop.calls s4)
       = Some (EventLoop.Settled
                 (fst (Proper.getTwitchToken_end h
                         (net h n (Proper.token_request cfg)) (EventLoop.mem s2))))
    /\ EventLoop.status_of b (EventLoop.calls s4)
       = Some (EventLoop.Settled
                 (fst (Proper.getTwitchToken_end h
                         (net h (S n) (Proper.token_request cfg)) (EventLoop.mem s3)))).
Proof.
  intros h cfg w a b s0 s2 s3 s4 n Hid Hsec Hab Hstale0 Hstale1.
  destruct (invoke_stale h cfg a s0 Hid Hsec Hstale0) as (Hc1 & Hl1 & _).
  destruct (invoke_stale h cfg b _ Hid Hsec Hstale1) as (Hc2 & Hl2 & _).
  change (EventLoop.invoke h cfg b (EventLoop.invoke h cfg a s0)) with s2 in Hc2, Hl2.
  rewrite Hl1 in Hl2. rewrite Hc1, Hl1 in Hc2. cbn [EventLoop.mem EventLoop.calls s0] in Hl2, Hc2.
  rewrite length_app, Nat.add_comm in Hc2. cbn [length Nat.add] in Hc2. fold n in Hc2.
  assert (Ha : EventLoop.status_of a (EventLoop.calls s2) = Some (EventLoop.Waiting n)).
  { rewrite Hc2. cbn [EventLoop.status_of].
    now rewrite (proj2 (Nat.eqb_neq a b) Hab), Nat.eqb_refl. }
  assert (Hb : EventLoop.status_of b (EventLoop.calls s2) = Some (EventLoop.Waiting (S n))).
  { rewrite Hc2. cbn [EventLoop.status_of]. now rewrite Nat.eqb_refl. }
  destruct (deliver_waiting h cfg a n s2 Ha) as [Ha3 Hother].
  change (EventLoop.deliver h cfg a s2) with s3 in Ha3, Hother.
  assert (Hb3 : EventLoop.status_of b (EventLoop.calls s3) = Some (EventLoop.Waiting (S n))).
  { rewrite Hother; [exact Hb | auto]. }
  destruct (deliver_waiting h cfg b (S n) s3 Hb3) as [Hb4 Hother4].
  change (EventLoop.deliver h cfg b s3) with s4 in Hb4, Hother4.
  repeat split.
  - rewrite Hl2, <- app_assoc. reflexivity.
  - exact Ha.
  - exact Hb.
  - rewrite Hother4; [exact Ha3 | exact Hab].
  - exact Hb4.
Qed.

Lemma C4_witness :
  let s0 := {| EventLoop.mem := initial; EventLoop.calls := [] |} in
  let s2 := EventLoop.run (Samples.live_host "Valorant") Samples.cfg_ok s0
              [EventLoop.Invoke 1; EventLoop.Invoke 2] in
  log (EventLoop.mem s2)
  = [Proper.token_request Samples.cfg_ok; Proper.token_request Samples.cfg_ok]
  /\ EventLoop.status_of 1 (EventLoop.calls s2) = Some (EventLoop.Waiting 0)
  /\ EventLoop.status_of 2 (EventLoop.calls s2) = Some (EventLoop.Waiting 1).
Proof.
  intros s0 s2.
  pose proof (C4_overlapping_calls_each_exchange
                (Samples.live_host "Valorant") Samples.cfg_ok initial 1 2
                eq_refl eq_refl (n_Sn 1) eq_refl eq_refl)
    as (Hl & Ha & Hb & _).
  repeat split; assumption.
Defined.

(** C4 as stated fails: two calls that overlap on an empty cache both find
    no token, and two credential exchanges go out, not one. *)
Lemma C4_counterexample :
  let s0 := {| EventLoop.mem := initial; EventLoop.calls := [] |} in
  let s1 := EventLoop.run (Samples.live_host "Valorant") Samples.cfg_ok s0
              [EventLoop.Invoke 1] in
  let s2 := EventLoop.run (Samples.live_host "Valorant") Samples.cfg_ok s1
              [EventLoop.Invoke 2] in
  fst (Proper.cache_fresh (Samples.live_host "Valorant") (EventLoop.mem s0)) = Ok false
  /\ fst (Proper.cache_fresh (Samples.live_host "Valorant") (EventLoop.mem s1)) = Ok false
  /\ EventLoop.exchanges (log (EventLoop.mem s2)) = 2
  /\ EventLoop.exchanges (log (EventLoop.mem s2)) <> 1.
Proof. repeat split; vm_compute; discriminate. Qed.

(** ** The reachable states are closed under the route *)

Section Invariants.

Variable I : world -> Prop.

Lemma preserves_pure {A} (c : M A) :
  (forall w, snd (c w) = w) -> preserves I c.
Proof. intros H w Hw. now rewrite H. Qed.

Lemma preserves_bind {A B} (c : M A) (k : A -> M B) :
  preserves I c -> (forall a, preserves I (k a)) -> preserves I (bind c k).
Proof.
  intros Hc Hk w Hw. unfold bind. specialize (Hc w Hw).
  destruct (c w) as [[a|e] w1]; [now apply Hk | exact Hc].
Qed.

Lemma preserves_try_catch {A} (c : M A) (handler : error -> M A) :
  preserves I c -> (forall e, preserves I (handler e)) ->
  preserves I (try_catch c handler).
Proof.
  intros Hc Hh w Hw. unfold try_catch. specialize (Hc w Hw).
  destruct (c w) as [[a|e] w1]; [exact Hc | now apply Hh].
Qed.

Lemma preserves_lift_string (o : option string) : preserves I (lift_string o).
Proof. destruct o; now apply preserves_pure. Qed.

End Invariants.

Ltac preserves_step :=
  first
    [ apply preserves_pure; intros; reflexivity
    | apply preserves_lift_string
    | apply preserves_bind; [| intros]
    | apply preserves_try_catch; [| intros] ].

Section Reachability.
Import Proper.
Variable h : host.
Variable cfg : config.

Lemma makeApiRequest_reachable (path : string) :
  preserves (reachable h cfg) (makeApiRequest h cfg path).
Proof. intros w Hw. now apply reach_request. Qed.

Lemma getTwitchUser_reachable (username : string) :
  preserves (reachable h cfg) (getTwitchUser h cfg username).
Proof.
  unfold getTwitchUser, first_or_null.
  apply preserves_try_catch; [|intros; preserves_step].
  apply preserves_bind; [apply makeApiRequest_reachable|].
  intros; repeat preserves_step.
Qed.

Lemma getCurrentStream_reachable (userId : value) :
  preserves (reachable h cfg) (getCurrentStream h cfg userId).
Proof.
  unfold getCurrentStream, first_or_null.
  apply preserves_try_catch; [|intros; preserves_step].
  apply preserves_bind; [preserves_step|]. intros id.
  apply preserves_bind; [apply makeApiRequest_reachable|].
  intros; repeat preserves_step.
Qed.

Lemma getChannelInfo_reachable (userId : value) :
  preserves (reachable h cfg) (getChannelInfo h cfg userId).
Proof.
  unfold getChannelInfo, first_or_null.
  apply preserves_try_catch; [|intros; preserves_step].
  apply preserves_bind; [preserves_step|]. intros id.
  apply preserves_bind; [apply makeApiRequest_reachable|].
  intros; repeat preserves_step.
Qed.

Lemma getRecentVideos_reachable (userId : value) :
  preserves (reachable h cfg) (getRecentVideos h cfg userId).
Proof.
  unfold getRecentVideos.
  apply preserves_try_catch; [|intros; preserves_step].
  apply preserves_bind; [preserves_step|]. intros id.
  apply preserves_bind; [apply makeApiRequest_reachable|].
  intros; repeat preserves_step.
Qed.

Lemma playing_pure (x : value) (w : world) : snd (playing x w) = w.
Proof.
  unfold playing, bind, lift, ret.
  destruct (truthy x); [|reflexivity]. now destruct (get x "game_name").
Qed.

Lemma getLastPlayedGame_reachable (userId : value) :
  preserves (reachable h cfg) (getLastPlayedGame h cfg userId).
Proof.
  unfold getLastPlayedGame.
  apply preserves_try_catch; [|intros; preserves_step].
  apply preserves_bind; [apply getCurrentStream_reachable|]. intros stream.
  apply preserves_bind; [apply preserves_pure, playing_pure|]. intros [g|].
  { preserves_step. }
  apply preserves_bind; [apply getChannelInfo_reachable|]. intros channelInfo.
  apply preserves_bind; [apply preserves_pure, playing_pure|]. intros [g|].
  { preserves_step. }
  apply preserves_bind; [apply getRecentVideos_reachable|].
  intros; preserves_step.
Qed.

Lemma compose_pure (username : string) (game : value) (w : world) :
  snd (compose username game w) = w.
Proof.
  unfold compose, bind, lift_string.
  destruct (truthy game && negb (is_str game "games")).
  - now destruct (to_string game).
  - now destruct (is_str game "games").
Qed.

(** Serving a request leads from a reachable state to a reachable state. *)
Lemma resolveShoutout_reachable (user : option string) :
  preserves (reachable h cfg) (resolveShoutout h cfg user).
Proof.
  unfold resolveShoutout.
  destruct (negb (str_truthy _)); [preserves_step|].
  destruct (negb (username_re_test _)); [preserves_step|].
  apply preserves_try_catch; [|intros; preserves_step].
  apply preserves_bind; [apply getTwitchUser_reachable|]. intros u.
  destruct (negb (truthy u)); [preserves_step|].
  apply preserves_bind; [preserves_step|]. intros id.
  apply preserves_bind; [apply getLastPlayedGame_reachable|]. intros game.
  apply preserves_pure, compose_pure.
Qed.

End Reachability.

(** The predicate that recognises lookups is not vacuous: for a channel
    that is offline with no stored category, the chain goes on to the
    channel-info and the archived-broadcast lookups. *)
Example offline_chain_looks_further :
  let w := snd (Proper.getLastPlayedGame Samples.offline_host Samples.cfg_ok
                  (VStr "42") initial) in
  existsb (Proper.is_lookup "channels") (log w) = true
  /\ existsb (Proper.is_lookup "videos") (log w) = true
  /\ fst (Proper.getLastPlayedGame Samples.offline_host Samples.cfg_ok
            (VStr "42") initial) = Ok (VStr "games").
Proof. repeat split. Qed.

(** ** The end-to-end scenarios of the specification *)

Example scenario_not_found :
  fst (Proper.resolveShoutout Samples.dead_host Samples.cfg_ok (Some "ninja") initial)
  = Ok ("User " ++ dquote ++ "ninja" ++ dquote
        ++ " not found on Twitch. Please check the username and try again.").
Proof. reflexivity. Qed.

Example scenario_live :
  fst (Proper.resolveShoutout (Samples.live_host "Valorant") Samples.cfg_ok
         (Some "shroud") initial)
  = Ok "Check out shroud, they are playing Valorant at https://twitch.tv/shroud!".
Proof. reflexivity. Qed.

Example scenario_offline :
  fst (Proper.resolveShoutout Samples.offline_host Samples.cfg_ok
         (Some "quietviewer") initial)
  = Ok "Check out quietviewer, great gaming content at https://twitch.tv/quietviewer!"
  /\ Enhanced.sniff Samples.offline_host
       (VArr [Proper.archive "PT45M" "Late night Minecraft build"])
     = Ok (VStr "Minecraft").
Proof. split; reflexivity. Qed.

(** * Further properties of the code *)

(** ** The token cache, beyond the failing exchange *)

Section TokenCache.
Import Proper.
Variable h : host.
Variable cfg : config.

Lemma cache_fresh_hit (w : world) :
  truthy (twitchToken w) = true ->
  num_lt (Num (clock h (ticks w))) (tokenExpiry w) = true ->
  cache_fresh h w
  = (Ok true, {| twitchToken := twitchToken w; tokenExpiry := tokenExpiry w;
                 ticks := S (ticks w); log := log w |}).
Proof.
  intros Ht Hlt. unfold cache_fresh, bind, read_token, read_expiry, Date_now, ret.
  rewrite Ht. cbn [tokenExpiry]. now rewrite Hlt.
Qed.

Lemma getTwitchToken_hit (w : world) :
  truthy (twitchToken w) = true ->
  num_lt (Num (clock h (ticks w))) (tokenExpiry w) = true ->
  getTwitchToken h cfg w
  = (Ok (twitchToken w),
     {| twitchToken := twitchToken w; tokenExpiry := tokenExpiry w;
        ticks := S (ticks w); log := log w |}).
Proof.
  intros Ht Hlt. unfold getTwitchToken, getTwitchToken_start, bind.
  now rewrite (cache_fresh_hit w Ht Hlt).
Qed.

(** A stale cache, both credentials set: the call is its end handler, run
    on the answer to the exchange it sent. *)
Lemma getTwitchToken_stale (w : world) :
  str_truthy (TWITCH_CLIENT_ID cfg) = true ->
  str_truthy (TWITCH_CLIENT_SECRET cfg) = true ->
  fst (cache_fresh h w) = Ok false ->
  exists w',
    log w' = (log w ++ [token_request cfg])%list
    /\ cache w' = cache w
    /\ ticks w' = ticks (snd (cache_fresh h w))
    /\ getTwitchToken h cfg w
       = getTwitchToken_end h (net h (length (log w)) (token_request cfg)) w'.
Proof.
  intros Hid Hsec Hstale.
  destruct (getTwitchToken_start_stale h cfg w Hid Hsec Hstale)
    as (w' & E & Hl & Hc & Hk).
  exists w'. repeat split; auto.
  unfold getTwitchToken, bind. now rewrite E.
Qed.

(** The end handler on a well-formed answer. *)
Lemma getTwitchToken_end_ok (response tok : value) (n : Z) (w : world) :
  get response "access_token" = Ok tok ->
  get response "expires_in" = Ok (VNum n) ->
  getTwitchToken_end h (Parsed response) w
  = (Ok tok,
     {| twitchToken := tok;
        tokenExpiry := Num (clock h (ticks w) + n * 1000 - 60000);
        ticks := S (ticks w); log := log w |}).
Proof.
  intros Ha He. unfold getTwitchToken_end, bind, lift, set_token, set_expiry,
    Date_now, read_token. rewrite Ha. cbn [ticks]. now rewrite He.
Qed.

End TokenCache.

(** X1: a cached token whose expiry lies after the clock reading is
    returned as it is: no request goes out and both module variables keep
    their values.  The credentials are not even looked at. *)
Theorem X1_valid_token_is_not_refetched :
  forall (h : host) (cfg : config) (w : world),
    truthy (twitchToken w) = true ->
    num_lt (Num (clock h (ticks w))) (tokenExpiry w) = true ->
    fst (Proper.getTwitchToken h cfg w) = Ok (twitchToken w)
    /\ log (snd (Proper.getTwitchToken h cfg w)) = log w
    /\ cache (snd (Proper.getTwitchToken h cfg w)) = cache w.
Proof.
  intros h cfg w Ht Hlt. rewrite (getTwitchToken_hit h cfg w Ht Hlt).
  repeat split.
Qed.

Lemma X1_witness :
  fst (Proper.getTwitchToken Samples.dead_host Samples.cfg_empty Samples.cached_world)
  = Ok (VStr "token")
  /\ log (snd (Proper.getTwitchToken Samples.dead_host Samples.cfg_empty
                 Samples.cached_world)) = [].
Proof.
  destruct (X1_valid_token_is_not_refetched
              Samples.dead_host Samples.cfg_empty Samples.cached_world
              eq_refl eq_refl) as (H1 & H2 & _).
  split; assumption.
Defined.

(** X2: when no valid token is cached, both credentials are set and the
    identity endpoint answers an object with [access_token] and a numeric
    [expires_in], the call sends exactly one exchange, returns the new
    token, and stores it with the expiry
    [now + expires_in * 1000 - 60000], [now] being read when the answer
    arrives; this for a clock reading and an [expires_in] such that the
    product, the sum and the difference are safe integers, where the double
    arithmetic of the code is exact. *)
Theorem X2_successful_exchange_fills_the_cache :
  forall (h : host) (cfg : config) (w : world) (response tok : value) (n : Z),
    let now := clock h (ticks (snd (Proper.cache_fresh h w))) in
    str_truthy (TWITCH_CLIENT_ID cfg) = true ->
    str_truthy (TWITCH_CLIENT_SECRET cfg) = true ->
    fst (Proper.cache_fresh h w) = Ok false ->
    net h (length (log w)) (Proper.token_request cfg) = Parsed response ->
    get response "access_token" = Ok tok ->
    get response "expires_in" = Ok (VNum n) ->
    safe_integer now ->
    safe_integer n ->
    safe_integer (n * 1000) ->
    safe_integer (now + n * 1000) ->
    safe_integer (now + n * 1000 - 60000) ->
    fst (Proper.getTwitchToken h cfg w) = Ok tok
    /\ cache (snd (Proper.getTwitchToken h cfg w))
       = (tok, Num (now + n * 1000 - 60000))
    /\ log (snd (Proper.getTwitchToken h cfg w))
       = (log w ++ [Proper.token_request cfg])%list.
Proof.
  intros h cfg w response tok n now Hid Hsec Hstale Hnet Ha He _ _ _ _ _.
  destruct (getTwitchToken_stale h cfg w Hid Hsec Hstale)
    as (w' & Hl & Hc & Hk & E).
  rewrite E, Hnet, (getTwitchToken_end_ok h response tok n w' Ha He).
  cbn [fst snd cache twitchToken tokenExpiry log].
  unfold now. rewrite Hk, Hl. repeat split.
Qed.

Lemma X2_witness :
  fst (Proper.getTwitchToken (Samples.live_host "Valorant") Samples.cfg_ok initial)
  = Ok (VStr "token")
  /\ cache (snd (Proper.getTwitchToken (Samples.live_host "Valorant")
                   Samples.cfg_ok initial))
     = (VStr "token", Num 4540000)
  /\ log (snd (Proper.getTwitchToken (Samples.live_host "Valorant")
                 Samples.cfg_ok initial))
     = [Proper.token_request Samples.cfg_ok].
Proof.
  apply (X2_successful_exchange_fills_the_cache
           (Samples.live_host "Valorant") Samples.cfg_ok initial
           (VObj [("access_token", VStr "token"); ("expires_in", VNum 3600)])
           (VStr "token") 3600 eq_refl eq_refl eq_refl eq_refl eq_refl eq_refl);
    unfold safe_integer; vm_compute; split; discriminate.
Defined.

(** X3: calls that follow one another share a refresh.  When a call has
    filled the cache by an exchange and the next call reads the clock
    before the stored expiry, the next call sends nothing and returns the
    same token: the two calls together send one exchange. *)
Theorem X3_sequential_calls_share_one_exchange :
  forall (h : host) (cfg : config) (w : world) (response tok : value) (n : Z),
    let w0 := snd (Proper.cache_fresh h w) in
    let twice := bind (Proper.getTwitchToken h cfg)
                      (fun _ => Proper.getTwitchToken h cfg) in
    str_truthy (TWITCH_CLIENT_ID cfg) = true ->
    str_truthy (TWITCH_CLIENT_SECRET cfg) = true ->
    fst (Proper.cache_fresh h w) = Ok false ->
    net h (length (log w)) (Proper.token_request cfg) = Parsed response ->
    get response "access_token" = Ok tok ->
    truthy tok = true ->
    get response "expires_in" = Ok (VNum n) ->
    (clock h (S (ticks w0)) < clock h (ticks w0) + n * 1000 - 60000)%Z ->
    fst (twice w) = Ok tok
    /\ log (snd (twice w)) = (log w ++ [Proper.token_request cfg])%list.
Proof.
  intros h cfg w response tok n w0 twice Hid Hsec Hstale Hnet Ha Htok He Hlt.
  destruct (getTwitchToken_stale h cfg w Hid Hsec Hstale)
    as (w' & Hl & Hc & Hk & E).
  unfold twice, bind.
  rewrite E, Hnet, (getTwitchToken_end_ok h response tok n w' Ha He).
  rewrite getTwitchToken_hit.
  - cbn [fst snd log twitchToken]. now rewrite Hl.
  - exact Htok.
  - cbn [ticks tokenExpiry num_lt]. rewrite Hk. fold w0.
    now apply Z.ltb_lt.
Qed.

Lemma X3_witness :
  let twice := bind (Proper.getTwitchToken (Samples.live_host "Valorant") Samples.cfg_ok)
                    (fun _ => Proper.getTwitchToken (Samples.live_host "Valorant")
                                Samples.cfg_ok) in
  fst (twice initial) = Ok (VStr "token")
  /\ log (snd (twice initial)) = [Proper.token_request Samples.cfg_ok].
Proof.
  exact (X3_sequential_calls_share_one_exchange
           (Samples.live_host "Valorant") Samples.cfg_ok initial
           (VObj [("access_token", VStr "token"); ("expires_in", VNum 3600)])
           (VStr "token") 3600 eq_refl eq_refl eq_refl eq_refl eq_refl eq_refl
           eq_refl eq_refl).
Defined.

(** X4: an answer that carries a token but no [expires_in] is accepted, and
    stored with the expiry [NaN]; a token stored that way is never served
    from the cache, whatever the clock reads. *)
Theorem X4_token_without_expiry_is_never_reused :
  forall (h : host) (cfg : config) (w : world) (response tok : value),
    str_truthy (TWITCH_CLIENT_ID cfg) = true ->
    str_truthy (TWITCH_CLIENT_SECRET cfg) = true ->
    fst (Proper.cache_fresh h w) = Ok false ->
    net h (length (log w)) (Proper.token_request cfg) = Parsed response ->
    get response "access_token" = Ok tok ->
    get response "expires_in" = Ok VUndef ->
    fst (Proper.getTwitchToken h cfg w) = Ok tok
    /\ cache (snd (Proper.getTwitchToken h cfg w)) = (tok, NaN)
    /\ forall h' w', cache w' = (tok, NaN) -> fst (Proper.cache_fresh h' w') = Ok false.
Proof.
  intros h cfg w response tok Hid Hsec Hstale Hnet Ha He.
  destruct (getTwitchToken_stale h cfg w Hid Hsec Hstale)
    as (w' & Hl & Hc & Hk & E).
  rewrite E, Hnet.
  unfold Proper.getTwitchToken_end, bind, lift, set_token, set_expiry,
    Date_now, read_token. rewrite Ha. cbn [ticks]. rewrite He.
  cbn. repeat split.
  intros h' w2 Hw2. unfold cache in Hw2. injection Hw2 as Ht Hx.
  unfold Proper.cache_fresh, bind, read_token, read_expiry, Date_now, ret.
  destruct (truthy (twitchToken w2)); [|reflexivity].
  cbn [tokenExpiry fst]. now rewrite Hx.
Qed.

Lemma X4_witness :
  fst (Proper.getTwitchToken Samples.forgetful_host Samples.cfg_ok initial)
  = Ok (VStr "token")
  /\ cache (snd (Proper.getTwitchToken Samples.forgetful_host Samples.cfg_ok initial))
     = (VStr "token", NaN)
  /\ forall h' w', cache w' = (VStr "token", NaN) ->
                   fst (Proper.cache_fresh h' w') = Ok false.
Proof.
  exact (X4_token_without_expiry_is_never_reused
           Samples.forgetful_host Samples.cfg_ok initial
           (VObj [("access_token", VStr "token")]) (VStr "token")
           eq_refl eq_refl eq_refl eq_refl eq_refl eq_refl).
Defined.

(** ** How many requests a computation sends *)

Section Budget.

Lemma sends_silent {A} (c : M A) :
  (forall w, log (snd (c w)) = log w) -> sends_at_most 0 c.
Proof.
  intros H w. exists []. rewrite app_nil_r, H. split; [reflexivity | apply le_n].
Qed.

Lemma sends_https_request (r : request) : sends_at_most 1 (https_request r).
Proof. intros w. exists [r]. split; [reflexivity | apply le_n]. Qed.

Lemma sends_weaken {A} (n m : nat) (c : M A) :
  (n <= m)%nat -> sends_at_most n c -> sends_at_most m c.
Proof.
  intros Hnm Hc w. destruct (Hc w) as (l & E & Hl).
  exists l. split; [exact E | lia].
Qed.

Lemma sends_bind {A B} (n m : nat) (c : M A) (k : A -> M B) :
  sends_at_most n c -> (forall a, sends_at_most m (k a)) ->
  sends_at_most (n + m) (bind c k).
Proof.
  intros Hc Hk w. unfold bind.
  destruct (Hc w) as (l1 & E1 & L1).
  destruct (c w) as [[a|e] w1]; simpl in E1.
  - destruct (Hk a w1) as (l2 & E2 & L2).
    exists (l1 ++ l2)%list. rewrite E2, E1, app_assoc, length_app.
    split; [reflexivity | lia].
  - exists l1. split; [exact E1 | lia].
Qed.

Lemma sends_try_catch {A} (n m : nat) (c : M A) (handler : error -> M A) :
  sends_at_most n c -> (forall e, sends_at_most m (handler e)) ->
  sends_at_most (n + m) (try_catch c handler).
Proof.
  intros Hc Hh w. unfold try_catch.
  destruct (Hc w) as (l1 & E1 & L1).
  destruct (c w) as [[a|e] w1]; simpl in E1.
  - exists l1. split; [exact E1 | lia].
  - destruct (Hh e w1) as (l2 & E2 & L2).
    exists (l1 ++ l2)%list. rewrite E2, E1, app_assoc, length_app.
    split; [reflexivity | lia].
Qed.

Lemma sends_lift_string (o : option string) : sends_at_most 0 (lift_string o).
Proof. destruct o; now apply sends_silent. Qed.

(** A computation that sends nothing, then one that sends at most [n]. *)
Lemma sends_after_silent {A B} (n : nat) (c : M A) (k : A -> M B) :
  sends_at_most 0 c -> (forall a, sends_at_most n (k a)) ->
  sends_at_most n (bind c k).
Proof. intros Hc Hk. exact (sends_bind 0 n c k Hc Hk). Qed.

(** A guarded computation whose handler sends nothing. *)
Lemma sends_guarded {A} (n : nat) (c : M A) (handler : error -> M A) :
  sends_at_most n c -> (forall e, sends_at_most 0 (handler e)) ->
  sends_at_most n (try_catch c handler).
Proof.
  intros Hc Hh. apply (sends_weaken (n + 0) n); [lia|].
  now apply sends_try_catch.
Qed.

End Budget.

Ltac sends_nothing :=
  first [ apply sends_lift_string
        | apply sends_silent; intros; reflexivity ].

Section ServiceBudget.
Import Proper.
Variable h : host.
Variable cfg : config.

Lemma getTwitchToken_end_silent (o : outcome) :
  sends_at_most 0 (getTwitchToken_end h o).
Proof.
  unfold getTwitchToken_end. destruct o; try sends_nothing.
  repeat (apply sends_after_silent; [sends_nothing | intros]). sends_nothing.
Qed.

Lemma getTwitchToken_budget : sends_at_most 1 (getTwitchToken h cfg).
Proof.
  unfold getTwitchToken, getTwitchToken_start, cache_fresh.
  apply (sends_bind 1 0).
  - apply sends_after_silent.
    + apply sends_after_silent; [sends_nothing|]. intros tok.
      destruct (truthy tok); [|sends_nothing].
      repeat (apply sends_after_silent; [sends_nothing | intros]). sends_nothing.
    + intros fresh. destruct fresh.
      { apply (sends_weaken 0 1); [lia|].
        apply sends_after_silent; [sends_nothing | intros; sends_nothing]. }
      destruct (negb _ || negb _).
      { apply (sends_weaken 0 1); [lia | sends_nothing]. }
      apply (sends_bind 1 0); [apply sends_https_request | intros; sends_nothing].
  - intros [tok|seq]; [sends_nothing | apply getTwitchToken_end_silent].
Qed.

Lemma makeApiRequest_budget (path : string) :
  sends_at_most 2 (makeApiRequest h cfg path).
Proof.
  unfold makeApiRequest.
  apply (sends_bind 1 1); [apply getTwitchToken_budget|]. intros token.
  apply sends_after_silent; [sends_nothing|]. intros bearer.
  apply (sends_bind 1 0); [apply sends_https_request|].
  intros seq. destruct (net h seq _); sends_nothing.
Qed.

Lemma first_or_null_silent (response : value) :
  sends_at_most 0 (first_or_null response).
Proof.
  unfold first_or_null.
  repeat (apply sends_after_silent; [sends_nothing | intros]). sends_nothing.
Qed.

Lemma getTwitchUser_budget (username : string) :
  sends_at_most 2 (getTwitchUser h cfg username).
Proof.
  unfold getTwitchUser. apply sends_guarded; [|intros; sends_nothing].
  apply (sends_bind 2 0); [apply makeApiRequest_budget|].
  intros; apply first_or_null_silent.
Qed.

Lemma getCurrentStream_budget (userId : value) :
  sends_at_most 2 (getCurrentStream h cfg userId).
Proof.
  unfold getCurrentStream. apply sends_guarded; [|intros; sends_nothing].
  apply sends_after_silent; [sends_nothing|]. intros id.
  apply (sends_bind 2 0); [apply makeApiRequest_budget|].
  intros; apply first_or_null_silent.
Qed.

Lemma getChannelInfo_budget (userId : value) :
  sends_at_most 2 (getChannelInfo h cfg userId).
Proof.
  unfold getChannelInfo. apply sends_guarded; [|intros; sends_nothing].
  apply sends_after_silent; [sends_nothing|]. intros id.
  apply (sends_bind 2 0); [apply makeApiRequest_budget|].
  intros; apply first_or_null_silent.
Qed.

Lemma getRecentVideos_budget (userId : value) :
  sends_at_most 2 (getRecentVideos h cfg userId).
Proof.
  unfold getRecentVideos. apply sends_guarded; [|intros; sends_nothing].
  apply sends_after_silent; [sends_nothing|]. intros id.
  apply (sends_bind 2 0); [apply makeApiRequest_budget|].
  intros response.
  apply sends_after_silent; [sends_nothing | intros; sends_nothing].
Qed.

Lemma playing_silent (x : value) : sends_at_most 0 (playing x).
Proof.
  apply sends_silent. intros w. now rewrite playing_pure.
Qed.

Lemma getLastPlayedGame_budget (userId : value) :
  sends_at_most 6 (getLastPlayedGame h cfg userId).
Proof.
  unfold getLastPlayedGame. apply sends_guarded; [|intros; sends_nothing].
  apply (sends_bind 2 4); [apply getCurrentStream_budget|]. intros stream.
  apply sends_after_silent; [apply playing_silent|]. intros [g|].
  { apply (sends_weaken 0 4); [lia | sends_nothing]. }
  apply (sends_bind 2 2); [apply getChannelInfo_budget|]. intros channelInfo.
  apply sends_after_silent; [apply playing_silent|]. intros [g|].
  { apply (sends_weaken 0 2); [lia | sends_nothing]. }
  apply (sends_bind 2 0); [apply getRecentVideos_budget|].
  intros; sends_nothing.
Qed.

Lemma compose_silent (username : string) (game : value) :
  sends_at_most 0 (compose username game).
Proof.
  apply sends_silent. intros w. now rewrite compose_pure.
Qed.

Lemma resolveShoutout_budget (user : option string) :
  sends_at_most 8 (resolveShoutout h cfg user).
Proof.
  unfold resolveShoutout.
  destruct (negb (str_truthy _)).
  { apply (sends_weaken 0 8); [lia | sends_nothing]. }
  destruct (negb (username_re_test _)).
  { apply (sends_weaken 0 8); [lia | sends_nothing]. }
  apply sends_guarded; [|intros; sends_nothing].
  apply (sends_bind 2 6); [apply getTwitchUser_budget|]. intros u.
  destruct (negb (truthy u)).
  { apply (sends_weaken 0 6); [lia | sends_nothing]. }
  apply sends_after_silent; [sends_nothing|]. intros id.
  apply (sends_bind 6 0); [apply getLastPlayedGame_budget|].
  intros game. apply compose_silent.
Qed.

End ServiceBudget.

Section ServiceTraffic.
Import Proper.
Variable h : host.
Variable cfg : config.

Lemma makeApiRequest_upstream (path : string) :
  prefix "/helix/" path = true ->
  emits (upstream cfg) (makeApiRequest h cfg path).
Proof.
  intros Hp. eapply emits_weaken; [|apply makeApiRequest_emits].
  intros r [H | (auth & ->)]; [now left | right]. now exists path, auth.
Qed.

Lemma getTwitchUser_upstream (username : string) :
  emits (upstream cfg) (getTwitchUser h cfg username).
Proof.
  unfold getTwitchUser, first_or_null.
  apply emits_try_catch; [|intros; emits_step].
  apply emits_bind; [now apply makeApiRequest_upstream | intros; repeat emits_step].
Qed.

Lemma getCurrentStream_upstream (userId : value) :
  emits (upstream cfg) (getCurrentStream h cfg userId).
Proof.
  unfold getCurrentStream, first_or_null.
  apply emits_try_catch; [|intros; emits_step].
  apply emits_bind; [emits_step|]. intros id.
  apply emits_bind; [now apply makeApiRequest_upstream | intros; repeat emits_step].
Qed.

Lemma getChannelInfo_upstream (userId : value) :
  emits (upstream cfg) (getChannelInfo h cfg userId).
Proof.
  unfold getChannelInfo, first_or_null.
  apply emits_try_catch; [|intros; emits_step].
  apply emits_bind; [emits_step|]. intros id.
  apply emits_bind; [now apply makeApiRequest_upstream | intros; repeat emits_step].
Qed.

Lemma getRecentVideos_upstream (userId : value) :
  emits (upstream cfg) (getRecentVideos h cfg userId).
Proof.
  unfold getRecentVideos.
  apply emits_try_catch; [|intros; emits_step].
  apply emits_bind; [emits_step|]. intros id.
  apply emits_bind; [now apply makeApiRequest_upstream | intros; repeat emits_step].
Qed.

Lemma playing_emits (x : value) : emits (upstream cfg) (playing x).
Proof. apply emits_silent. intros w. now rewrite playing_pure. Qed.

Lemma getLastPlayedGame_upstream (userId : value) :
  emits (upstream cfg) (getLastPlayedGame h cfg userId).
Proof.
  unfold getLastPlayedGame.
  apply emits_try_catch; [|intros; emits_step].
  apply emits_bind; [apply getCurrentStream_upstream|]. intros stream.
  apply emits_bind; [apply playing_emits|]. intros [g|]; [emits_step|].
  apply emits_bind; [apply getChannelInfo_upstream|]. intros channelInfo.
  apply emits_bind; [apply playing_emits|]. intros [g|]; [emits_step|].
  apply emits_bind; [apply getRecentVideos_upstream | intros; emits_step].
Qed.

Lemma resolveShoutout_upstream (user : option string) :
  emits (upstream cfg) (resolveShoutout h cfg user).
Proof.
  unfold resolveShoutout.
  destruct (negb (str_truthy _)); [emits_step|].
  destruct (negb (username_re_test _)); [emits_step|].
  apply emits_try_catch; [|intros; emits_step].
  apply emits_bind; [apply getTwitchUser_upstream|]. intros u.
  destruct (negb (truthy u)); [emits_step|].
  apply emits_bind; [emits_step|]. intros id.
  apply emits_bind; [apply getLastPlayedGame_upstream|]. intros game.
  apply emits_silent. intros w. now rewrite compose_pure.
Qed.

End ServiceTraffic.

(** X5: serving one shoutout request sends at most eight requests upstream,
    whatever the input and whatever comes back, and each of them is the
    credential exchange or a GET of a [/helix/] path at [api.twitch.tv]
    carrying the client identifier.  The bound is reached. *)
Theorem X5_shoutout_sends_at_most_eight_requests :
  forall (h : host) (cfg : config) (user : option string) (w : world),
    (exists new,
       log (snd (Proper.resolveShoutout h cfg user w)) = (log w ++ new)%list
       /\ (length new <= 8)%nat
       /\ Forall (fun r => Proper.is_exchange cfg r \/ Proper.is_helix_get cfg r) new)
    /\ length (log (snd (Proper.resolveShoutout Samples.restless_host Samples.cfg_ok
                           (Some "quietviewer") initial))) = 8%nat.
Proof.
  intros h cfg user w. split; [|reflexivity].
  destruct (resolveShoutout_budget h cfg user w) as (l1 & E1 & L1).
  destruct (resolveShoutout_upstream h cfg user w) as (l2 & E2 & F2).
  exists l1. repeat split; auto.
  rewrite E1 in E2. apply app_inv_head in E2. now subst l2.
Qed.

(** ** The Helix lookups *)

Section LookupFacts.
Import Proper.
Variable h : host.
Variable cfg : config.

Lemma bind_shape {A} (P : value -> Prop) (c : M A) (k : A -> M value) :
  (forall a w v w', k a w = (Ok v, w') -> P v) ->
  forall w v w', bind c k w = (Ok v, w') -> P v.
Proof.
  intros Hk w v w'. unfold bind.
  destruct (c w) as [[a|e] w1]; [apply Hk | discriminate].
Qed.

Lemma guarded_shape (P : value -> Prop) (c : M value) (d : value) :
  P d ->
  (forall w v w', c w = (Ok v, w') -> P v) ->
  forall w, exists v w', try_catch c (fun _ => ret d) w = (Ok v, w') /\ P v.
Proof.
  intros Hd Hc w. unfold try_catch, ret.
  destruct (c w) as [[v|e] w1] eqn:E; eauto.
Qed.

Lemma first_or_null_shape (response : value) (w : world) (v : value) (w' : world) :
  first_or_null response w = (Ok v, w') -> null_or_truthy v.
Proof.
  unfold first_or_null, bind, lift, ret, or_else.
  destruct (get response "data") as [data|e]; [|discriminate].
  destruct (index0 data) as [x|e]; [|discriminate].
  destruct (truthy x) eqn:Hx; intros [= <- _]; [now right | now left].
Qed.

Lemma api_then_first_shape (path : string) (w : world) (v : value) (w' : world) :
  bind (makeApiRequest h cfg path) first_or_null w = (Ok v, w') -> null_or_truthy v.
Proof. apply bind_shape. intros a. apply first_or_null_shape. Qed.

Lemma getTwitchUser_shape (username : string) (w : world) :
  exists v w', getTwitchUser h cfg username w = (Ok v, w') /\ null_or_truthy v.
Proof.
  apply guarded_shape; [now left|]. apply api_then_first_shape.
Qed.

Lemma getCurrentStream_shape (userId : value) (w : world) :
  exists v w', getCurrentStream h cfg userId w = (Ok v, w') /\ null_or_truthy v.
Proof.
  apply guarded_shape; [now left|]. apply bind_shape.
  intros id. apply api_then_first_shape.
Qed.

Lemma getChannelInfo_shape (userId : value) (w : world) :
  exists v w', getChannelInfo h cfg userId w = (Ok v, w') /\ null_or_truthy v.
Proof.
  apply guarded_shape; [now left|]. apply bind_shape.
  intros id. apply api_then_first_shape.
Qed.

Lemma getGameById_shape (gameId : value) (w : world) :
  exists v w', getGameById h cfg gameId w = (Ok v, w') /\ null_or_truthy v.
Proof.
  apply guarded_shape; [now left|]. intros w0 v w'.
  destruct (negb (truthy gameId)).
  - intros [= <- _]. now left.
  - apply bind_shape. intros id. apply api_then_first_shape.
Qed.

Lemma getRecentVideos_shape (userId : value) (w : world) :
  exists v w', getRecentVideos h cfg userId w = (Ok v, w') /\ truthy v = true.
Proof.
  apply guarded_shape; [reflexivity|]. apply bind_shape. intros id.
  apply bind_shape. intros response. apply bind_shape. intros data w0 v w'.
  unfold ret, or_else. destruct (truthy data) eqn:Hd; now intros [= <- _].
Qed.

End LookupFacts.

(** X6: with a valid token in the cache, [makeApiRequest] sends exactly one
    request, the GET of the given path at [api.twitch.tv] with the header
    [Bearer <token>] and the client identifier; it returns the parsed body
    as it is, and throws when the transport fails or the body is not JSON.
    The cache is not touched. *)
Theorem X6_api_request_with_a_cached_token :
  forall (h : host) (cfg : config) (path bearer : string) (w : world),
    truthy (twitchToken w) = true ->
    num_lt (Num (clock h (ticks w))) (tokenExpiry w) = true ->
    to_string (twitchToken w) = Some bearer ->
    let r := Get "api.twitch.tv" path ("Bearer " ++ bearer) (TWITCH_CLIENT_ID cfg) in
    log (snd (Proper.makeApiRequest h cfg path w)) = (log w ++ [r])%list
    /\ cache (snd (Proper.makeApiRequest h cfg path w)) = cache w
    /\ fst (Proper.makeApiRequest h cfg path w)
       = match net h (length (log w)) r with
         | Failed => Throw NetworkError
         | Unparseable => Throw SyntaxError
         | Parsed response => Ok response
         end.
Proof.
  intros h cfg path bearer w Ht Hlt Hb r.
  unfold Proper.makeApiRequest, bind.
  rewrite (getTwitchToken_hit h cfg w Ht Hlt), Hb.
  unfold lift_string, ret, https_request. cbn [log twitchToken tokenExpiry ticks].
  fold r. destruct (net h (length (log w)) r); repeat split.
Qed.

Lemma X6_witness :
  let r := Get "api.twitch.tv" "/helix/users?login=shroud" "Bearer token" "client-id" in
  log (snd (Proper.makeApiRequest (Samples.live_host "Valorant") Samples.cfg_ok
              "/helix/users?login=shroud" Samples.cached_world)) = [r]
  /\ cache (snd (Proper.makeApiRequest (Samples.live_host "Valorant") Samples.cfg_ok
                   "/helix/users?login=shroud" Samples.cached_world))
     = (VStr "token", Num 9000000)
  /\ fst (Proper.makeApiRequest (Samples.live_host "Valorant") Samples.cfg_ok
            "/helix/users?login=shroud" Samples.cached_world)
     = Ok (VObj [("data", VArr [VObj [("id", VStr "42"); ("login", VStr "shroud")]])]).
Proof.
  exact (X6_api_request_with_a_cached_token
           (Samples.live_host "Valorant") Samples.cfg_ok
           "/helix/users?login=shroud" "token" Samples.cached_world
           eq_refl eq_refl eq_refl).
Defined.

(** X7: the five lookups of the first variant never throw, whatever the
    upstream does.  The user, stream, channel and game lookups return null
    or a truthy value (never [undefined], an empty string, zero or false),
    the broadcast lookup always returns a truthy value, and each lookup
    sends at most two requests.  [getGameById] with a falsy id returns null
    without sending anything or touching the state. *)
Theorem X7_lookups_fail_soft :
  forall (h : host) (cfg : config) (username : string) (id : value) (w : world),
    (exists v w', Proper.getTwitchUser h cfg username w = (Ok v, w')
                  /\ (v = VNull \/ truthy v = true))
    /\ (exists v w', Proper.getCurrentStream h cfg id w = (Ok v, w')
                     /\ (v = VNull \/ truthy v = true))
    /\ (exists v w', Proper.getChannelInfo h cfg id w = (Ok v, w')
                     /\ (v = VNull \/ truthy v = true))
    /\ (exists v w', Proper.getGameById h cfg id w = (Ok v, w')
                     /\ (v = VNull \/ truthy v = true))
    /\ (exists v w', Proper.getRecentVideos h cfg id w = (Ok v, w')
                     /\ truthy v = true)
    /\ sends_at_most 2 (Proper.getTwitchUser h cfg username)
    /\ sends_at_most 2 (Proper.getCurrentStream h cfg id)
    /\ sends_at_most 2 (Proper.getChannelInfo h cfg id)
    /\ sends_at_most 2 (Proper.getRecentVideos h cfg id)
    /\ (truthy id = false -> Proper.getGameById h cfg id w = (Ok VNull, w)).
Proof.
  intros h cfg username id w.
  split; [apply getTwitchUser_shape|].
  split; [apply getCurrentStream_shape|].
  split; [apply getChannelInfo_shape|].
  split; [apply getGameById_shape|].
  split; [apply getRecentVideos_shape|].
  split; [apply getTwitchUser_budget|].
  split; [apply getCurrentStream_budget|].
  split; [apply getChannelInfo_budget|].
  split; [apply getRecentVideos_budget|].
  intros Hid. unfold Proper.getGameById, try_catch. now rewrite Hid.
Qed.

Lemma X7_witness :
  Proper.getGameById Samples.dead_host Samples.cfg_ok (VStr EmptyString) initial
  = (Ok VNull, initial).
Proof.
  destruct (X7_lookups_fail_soft Samples.dead_host Samples.cfg_ok "ninja"
              (VStr EmptyString) initial)
    as (_ & _ & _ & _ & _ & _ & _ & _ & _ & H).
  exact (H eq_refl).
Defined.

(** ** The fallback chain of the resolver *)

Section ChainFacts.
Import Proper.
Variable h : host.
Variable cfg : config.

Lemma getChannelInfo_emits (userId : value) :
  emits (fun r => is_lookup "videos" r = false) (getChannelInfo h cfg userId).
Proof.
  unfold getChannelInfo, first_or_null.
  apply emits_try_catch; [|intros; emits_step].
  apply emits_bind; [emits_step|]. intros id.
  apply emits_bind; [|intros; repeat emits_step].
  eapply emits_weaken; [|apply makeApiRequest_emits].
  intros r [-> | (auth & ->)]; reflexivity.
Qed.

Lemma playing_spec (x : value) (w : world) :
  exists r, playing x w = (Ok r, w)
            /\ match r with
               | Some g => truthy x = true /\ get x "game_name" = Ok g
                           /\ truthy g = true /\ is_str g "Just Chatting" = false
               | None => True
               end.
Proof.
  unfold playing, bind, lift, ret.
  destruct (truthy x) eqn:Hx; [|now exists None].
  destruct (get_truthy x "game_name" Hx) as [g Hg]. rewrite Hg.
  destruct (truthy g) eqn:Ht; [|now exists None].
  destruct (is_str g "Just Chatting") eqn:Hj; [now exists None|].
  exists (Some g). auto.
Qed.

(** The chain, step by step, once the outcomes of the lookups are known. *)
Lemma getLastPlayedGame_from_channel (userId stream info g : value)
      (w w1 w2 : world) :
  getCurrentStream h cfg userId w = (Ok stream, w1) ->
  playing stream w1 = (Ok None, w1) ->
  getChannelInfo h cfg userId w1 = (Ok info, w2) ->
  playing info w2 = (Ok (Some g), w2) ->
  getLastPlayedGame h cfg userId w = (Ok g, w2).
Proof.
  intros Hs Hp Hc Hq. unfold getLastPlayedGame, try_catch, bind.
  now rewrite Hs, Hp, Hc, Hq.
Qed.

Lemma getLastPlayedGame_from_videos (userId stream info videos : value)
      (w w1 w2 w3 : world) :
  getCurrentStream h cfg userId w = (Ok stream, w1) ->
  playing stream w1 = (Ok None, w1) ->
  getChannelInfo h cfg userId w1 = (Ok info, w2) ->
  playing info w2 = (Ok None, w2) ->
  getRecentVideos h cfg userId w2 = (Ok videos, w3) ->
  getLastPlayedGame h cfg userId w
  = (Ok match scan_videos videos with Ok g => g | Throw _ => VNull end, w3).
Proof.
  intros Hs Hp Hc Hq Hv. unfold getLastPlayedGame, try_catch, bind.
  rewrite Hs, Hp, Hc, Hq, Hv. unfold lift, ret.
  now destruct (scan_videos videos).
Qed.

Lemma scan_videos_shape (videos g : value) :
  scan_videos videos = Ok g -> g = VNull \/ g = VStr "games".
Proof.
  unfold scan_videos, rbind. destruct (iterate videos) as [items|e]; [|discriminate].
  destruct (scan_outcome items) as [H | [H | [e H]]]; rewrite H;
    intros [= <-]; auto.
Qed.

End ChainFacts.

(** X8: the second step of the chain.  When the stream lookup yields no
    category to report (not live, no category, or Just Chatting) and the
    channel-info lookup yields a category that is present and is not Just
    Chatting, [getLastPlayedGame] returns that category, and no
    archived-broadcast lookup is sent. *)
Theorem X8_channel_category_is_the_second_choice :
  forall (h : host) (cfg : config) (userId stream info g : value)
         (w w1 w2 : world),
    Proper.getCurrentStream h cfg userId w = (Ok stream, w1) ->
    Proper.playing stream w1 = (Ok None, w1) ->
    Proper.getChannelInfo h cfg userId w1 = (Ok info, w2) ->
    truthy info = true ->
    get info "game_name" = Ok g ->
    truthy g = true ->
    is_str g "Just Chatting" = false ->
    Proper.getLastPlayedGame h cfg userId w = (Ok g, w2)
    /\ exists new,
         log w2 = (log w ++ new)%list
         /\ Forall (fun r => Proper.is_lookup "videos" r = false) new.
Proof.
  intros h cfg userId stream info g w w1 w2 Hs Hp Hc Ht Hg Hgt Hj. split.
  - apply (getLastPlayedGame_from_channel h cfg userId stream info g w w1 w2);
      auto.
    unfold Proper.playing, bind, lift, ret. now rewrite Ht, Hg, Hgt, Hj.
  - destruct (getCurrentStream_emits h cfg userId w) as (n1 & E1 & F1).
    destruct (getChannelInfo_emits h cfg userId w1) as (n2 & E2 & F2).
    rewrite Hs in E1. rewrite Hc in E2. cbn [snd] in E1, E2.
    exists (n1 ++ n2)%list. rewrite E2, E1, app_assoc. split; [reflexivity|].
    apply Forall_app. split; [|exact F2].
    apply (Forall_impl _ (fun r H => proj2 H) F1).
Qed.

Lemma X8_witness :
  Proper.getLastPlayedGame Samples.archive_host Samples.cfg_ok (VStr "42") initial
  = (Ok (VStr "Minecraft"),
     snd (Proper.getChannelInfo Samples.archive_host Samples.cfg_ok (VStr "42")
            (snd (Proper.getCurrentStream Samples.archive_host Samples.cfg_ok
                    (VStr "42") initial)))).
Proof.
  refine (proj1 (X8_channel_category_is_the_second_choice
                   Samples.archive_host Samples.cfg_ok (VStr "42") VNull
                   (VObj [("game_name", VStr "Minecraft")]) (VStr "Minecraft")
                   initial _ _ eq_refl eq_refl eq_refl eq_refl eq_refl eq_refl eq_refl)).
Defined.

(** X9: the last step of the chain.  When neither the stream nor the
    channel information yields a category, the result is that of the scan
    of whatever the broadcast lookup returned, and null when the scan
    throws (a value that cannot be iterated, a null record, a title or a
    duration that is not a string). *)
Theorem X9_scan_is_the_last_resort :
  forall (h : host) (cfg : config) (userId stream info videos : value)
         (w w1 w2 w3 : world),
    Proper.getCurrentStream h cfg userId w = (Ok stream, w1) ->
    Proper.playing stream w1 = (Ok None, w1) ->
    Proper.getChannelInfo h cfg userId w1 = (Ok info, w2) ->
    Proper.playing info w2 = (Ok None, w2) ->
    Proper.getRecentVideos h cfg userId w2 = (Ok videos, w3) ->
    Proper.getLastPlayedGame h cfg userId w
    = (Ok match Proper.scan_videos videos with Ok g => g | Throw _ => VNull end, w3).
Proof.
  intros h cfg userId stream info videos w w1 w2 w3.
  apply getLastPlayedGame_from_videos.
Qed.

Lemma X9_witness :
  fst (Proper.getLastPlayedGame Samples.offline_host Samples.cfg_ok (VStr "42") initial)
  = Ok (VStr "games").
Proof.
  rewrite (X9_scan_is_the_last_resort
             Samples.offline_host Samples.cfg_ok (VStr "42") VNull
             (VObj [("game_name", VStr "Just Chatting")])
             (VArr [VObj [("type", VStr "archive"); ("duration", VStr "PT45M");
                          ("title", VStr "Late night Minecraft build")]])
             initial _ _ _ eq_refl eq_refl eq_refl eq_refl eq_refl).
  reflexivity.
Defined.

(** X10: whatever the upstream does, [getLastPlayedGame] returns; what it
    returns is null or a truthy value, and never the string ["Just
    Chatting"]. *)
Theorem X10_resolver_never_reports_just_chatting :
  forall (h : host) (cfg : config) (userId : value) (w : world),
    exists g w',
      Proper.getLastPlayedGame h cfg userId w = (Ok g, w')
      /\ (g = VNull \/ truthy g = true)
      /\ is_str g "Just Chatting" = false.
Proof.
  intros h cfg userId w.
  unfold Proper.getLastPlayedGame.
  apply (guarded_shape
           (fun g => (g = VNull \/ truthy g = true) /\ is_str g "Just Chatting" = false)).
  { split; [now left | reflexivity]. }
  apply bind_shape. intros stream w0 v w'. unfold bind.
  destruct (playing_spec stream w0) as ([g|] & -> & Hg).
  - intros [= <- _]. destruct Hg as (_ & _ & Ht & Hj). auto.
  - destruct (Proper.getChannelInfo h cfg userId w0) as [[info|e] w1];
      [|discriminate].
    destruct (playing_spec info w1) as ([g|] & -> & Hg').
    + intros [= <- _]. destruct Hg' as (_ & _ & Ht & Hj). auto.
    + destruct (Proper.getRecentVideos h cfg userId w1) as [[videos|e] w2];
        [|discriminate].
      unfold lift. destruct (Proper.scan_videos videos) as [g|e] eqn:E;
        [|discriminate].
      intros [= <- _].
      destruct (scan_videos_shape videos g E) as [-> | ->]; split; auto.
Qed.

(** ** The scan, record by record *)

Section ScanOrder.
Import Proper.

Lemma scan_skip_prefix (skipped rest : list value) :
  Forall (fun v => check_video v = Ok None) skipped ->
  scan (skipped ++ rest) = scan rest.
Proof.
  induction 1 as [|v l Hv _ IH]; [reflexivity|].
  change (scan (v :: (l ++ rest)) = scan rest).
  now rewrite (scan_skip v (l ++ rest) Hv).
Qed.

Lemma check_video_admits (video ty : value) (d t : string) (n : Z) :
  get video "type" = Ok ty -> is_str ty "archive" = true ->
  get video "duration" = Ok (VStr d) ->
  parsed_minutes d = Some (Num n) -> (30 < n)%Z ->
  get video "title" = Ok (VStr t) ->
  hasSkipWord (toLowerCase t) = false ->
  check_video video = Ok (Some (VStr "games")).
Proof.
  intros Hty Harch Hd Hm Hn Ht Hskip. unfold check_video, rbind.
  rewrite Hty, Harch, Hd.
  assert (Hdt : truthy (VStr d) = true).
  { destruct d; [discriminate Hm | reflexivity]. }
  rewrite Hdt. cbn [as_string].
  unfold parsed_minutes in Hm.
  destruct (match_duration d) as [m|]; [|discriminate].
  cbn [option_map] in Hm. injection Hm as Hm. rewrite Hm.
  cbn [num_gt num_lt]. rewrite (proj2 (Z.ltb_lt 30 n) Hn).
  rewrite Ht. cbn [as_string]. now rewrite Hskip.
Qed.

Lemma digits_val_nonneg (s : string) (acc : Z) :
  (0 <= acc)%Z -> (0 <= digits_val acc s)%Z.
Proof.
  revert acc. induction s as [|c s IH]; intros acc Hacc; [exact Hacc|].
  cbn [digits_val]. apply IH. unfold digit_val. lia.
Qed.

Lemma parseInt_group (u : ascii) (s rest : string) (g : option string) :
  opt_group u s = (g, rest) ->
  exists n, parseInt (group_or_zero g) = Num n /\ (0 <= n)%Z.
Proof.
  unfold opt_group. pose proof (span_digits_split s) as Hsplit.
  destruct (span_digits s) as [ds tl]. destruct Hsplit as (_ & Hd & _).
  assert (Hzero : exists n, parseInt (group_or_zero None) = Num n /\ (0 <= n)%Z).
  { exists 0%Z. split; [reflexivity | lia]. }
  destruct ds as [|c ds]; [intros [= <- _]; exact Hzero|].
  destruct tl as [|c' tl]; [intros [= <- _]; exact Hzero|].
  destruct (Ascii.eqb c' u); intros [= <- _]; [|exact Hzero].
  cbn [group_or_zero]. rewrite (parseInt_digits _ Hd eq_refl).
  eexists. split; [reflexivity | apply digits_val_nonneg; lia].
Qed.

Lemma totalMinutes_number (d : string) (x : num) :
  parsed_minutes d = Some x -> exists n, x = Num n /\ (0 <= n)%Z.
Proof.
  unfold parsed_minutes, match_duration.
  destruct (after_PT d) as [r|]; [|discriminate].
  destruct (opt_group "H" r) as [g1 r1] eqn:E1.
  destruct (opt_group "M" r1) as [g2 r2] eqn:E2.
  destruct (opt_group "S" r2) as [g3 r3].
  cbn [option_map totalMinutes]. intros [= <-].
  destruct (parseInt_group _ _ _ _ E1) as (a & -> & Ha).
  destruct (parseInt_group _ _ _ _ E2) as (b & -> & Hb).
  exists (a * 60 + b)%Z. split; [reflexivity | lia].
Qed.

Lemma prefix_PT (c c' : ascii) (rest : string) :
  prefix "PT" (String c (String c' rest)) = Ascii.eqb c "P" && Ascii.eqb c' "T".
Proof.
  cbn [prefix].
  destruct (ascii_dec "P" c) as [<- | Hc].
  - destruct (ascii_dec "T" c') as [<- | Hc'].
    + now destruct rest.
    + symmetry. cbn [andb Ascii.eqb]. apply Ascii.eqb_neq. congruence.
  - symmetry. apply andb_false_iff. left. apply Ascii.eqb_neq. congruence.
Qed.

Lemma after_PT_includes (d : string) :
  includes d "PT" = match after_PT d with Some _ => true | None => false end.
Proof.
  induction d as [|c d IH]; [reflexivity|].
  destruct d as [|c' rest].
  - assert (E : prefix "PT" (String c EmptyString) = false).
    { cbn [prefix]. now destruct (ascii_dec "P" c). }
    cbn [includes after_PT]. now rewrite E.
  - rewrite after_PT_cons. cbn [includes]. rewrite prefix_PT.
    destruct (Ascii.eqb c "P" && Ascii.eqb c' "T"); [reflexivity | exact IH].
Qed.

End ScanOrder.

(** X11: the first record that does not fall through decides the scan.
    After any number of records that fall through, a record that qualifies
    makes the scan return ["games"], and a record on which the loop body
    throws makes the whole scan throw, whatever comes after it: later
    records are never looked at, even when they qualify. *)
Theorem X11_first_record_that_counts_decides :
  forall (skipped rest : list value) (video : value),
    Forall (fun v => Proper.check_video v = Ok None) skipped ->
    Proper.scan (skipped ++ rest) = Proper.scan rest
    /\ (forall g, Proper.check_video video = Ok (Some g) ->
                  Proper.scan (skipped ++ video :: rest) = Ok (VStr "games"))
    /\ (forall e, Proper.check_video video = Throw e ->
                  Proper.scan (skipped ++ video :: rest) = Throw e).
Proof.
  intros skipped rest video Hs. split; [now apply scan_skip_prefix|]. split.
  - intros g Hg. rewrite (scan_skip_prefix skipped _ Hs).
    rewrite (scan_return video g rest Hg).
    now destruct (check_video_returns video g Hg) as [-> _].
  - intros e He. rewrite (scan_skip_prefix skipped _ Hs).
    cbn [Proper.scan]. unfold rbind. now rewrite He.
Qed.

Lemma X11_witness :
  Proper.scan ([Proper.archive "PT10M" "Warmup"]
               ++ VNull :: [Proper.archive "PT2H" "Elden Ring"])
  = Throw TypeError
  /\ Proper.scan ([Proper.archive "PT10M" "Warmup"]
                  ++ Proper.archive "PT2H" "Elden Ring" :: [VNull])
     = Ok (VStr "games").
Proof.
  assert (Hs : Forall (fun v => Proper.check_video v = Ok None)
                      [Proper.archive "PT10M" "Warmup"]).
  { constructor; [reflexivity | constructor]. }
  split.
  - apply (proj2 (proj2 (X11_first_record_that_counts_decides
                           [Proper.archive "PT10M" "Warmup"]
                           [Proper.archive "PT2H" "Elden Ring"] VNull Hs))).
    reflexivity.
  - apply (proj1 (proj2 (X11_first_record_that_counts_decides
                           [Proper.archive "PT10M" "Warmup"] [VNull]
                           (Proper.archive "PT2H" "Elden Ring") Hs))
             (VStr "games")).
    reflexivity.
Defined.

(** X12: the loop body returns for exactly the records whose [type] is
    ['archive'], whose duration is a string of more than 30 parsed minutes
    and whose title is a string without any skip word; what it returns is
    then ["games"]. *)
Theorem X12_which_records_qualify :
  forall (video g : value),
    Proper.check_video video = Ok (Some g)
    <-> g = VStr "games"
        /\ exists ty d n t,
             get video "type" = Ok ty /\ is_str ty "archive" = true
             /\ get video "duration" = Ok (VStr d)
             /\ Proper.parsed_minutes d = Some (Num n) /\ (30 < n)%Z
             /\ get video "title" = Ok (VStr t)
             /\ Proper.hasSkipWord (toLowerCase t) = false.
Proof.
  intros video g. split.
  - apply check_video_returns.
  - intros (-> & ty & d & n & t & Hty & Harch & Hd & Hm & Hn & Ht & Hskip).
    now apply (check_video_admits video ty d t n).
Qed.

(** X13: a duration string parses exactly when it contains [PT], anywhere
    and in upper case; when it parses, the total is a number (never [NaN])
    and is not negative. *)
Theorem X13_duration_parse_is_a_number :
  forall d : string,
    (Proper.parsed_minutes d = None <-> includes d "PT" = false)
    /\ forall x, Proper.parsed_minutes d = Some x ->
                 exists n, x = Num n /\ (0 <= n)%Z.
Proof.
  intros d. split; [|apply totalMinutes_number].
  rewrite after_PT_includes. unfold Proper.parsed_minutes, match_duration.
  destruct (after_PT d) as [r|].
  - destruct (opt_group "H" r) as [g1 r1].
    destruct (opt_group "M" r1) as [g2 r2].
    destruct (opt_group "S" r2) as [g3 r3].
    cbn [option_map]. split; discriminate.
  - split; reflexivity.
Qed.

(** ** Cleaning and encoding the username *)

Section UsernameFacts.
Import Proper.

Lemma word_char_plain (c : ascii) :
  is_word_char c = true ->
  is_space c = false /\ Ascii.eqb c "@" = false /\ is_unreserved c = true.
Proof.
  destruct c as [[] [] [] [] [] [] [] []]; vm_compute; intros H;
    try discriminate H; auto.
Qed.

Lemma encode_char_alphabet (c : ascii) :
  all_chars (fun x => is_unreserved x || Ascii.eqb x "%") (encode_char c) = true.
Proof. destruct c as [[] [] [] [] [] [] [] []]; vm_compute; reflexivity. Qed.

Lemma trimStart_spaces (ws s : string) :
  all_chars is_space ws = true -> trimStart (ws ++ s) = trimStart s.
Proof.
  induction ws as [|c ws IH]; intros H; [reflexivity|].
  simpl in H. apply andb_prop in H. destruct H as [Hc Hw].
  change (trimStart (String c (ws ++ s)) = trimStart s).
  cbn [trimStart]. rewrite Hc. now apply IH.
Qed.

Lemma trimEnd_all_spaces (ws : string) :
  all_chars is_space ws = true -> trimEnd ws = EmptyString.
Proof.
  induction ws as [|c ws IH]; intros H; [reflexivity|].
  simpl in H. apply andb_prop in H. destruct H as [Hc Hw].
  cbn [trimEnd]. now rewrite (IH Hw), Hc.
Qed.

Lemma trimEnd_spaces (s ws : string) :
  all_chars is_space ws = true -> trimEnd (s ++ ws) = trimEnd s.
Proof.
  intros H. induction s as [|c s IH]; [now apply trimEnd_all_spaces|].
  change (trimEnd (String c (s ++ ws)) = trimEnd (String c s)).
  cbn [trimEnd]. now rewrite IH.
Qed.

Lemma trimEnd_no_space (s : string) :
  all_chars (fun c => negb (is_space c)) s = true -> trimEnd s = s.
Proof.
  induction s as [|c s IH]; intros H; [reflexivity|].
  simpl in H. apply andb_prop in H. destruct H as [Hc Hs].
  cbn [trimEnd]. rewrite (IH Hs). apply negb_true_iff in Hc.
  destruct s; [now rewrite Hc | reflexivity].
Qed.

Lemma all_chars_impl (p q : ascii -> bool) (s : string) :
  (forall c, p c = true -> q c = true) ->
  all_chars p s = true -> all_chars q s = true.
Proof.
  intros Hpq. induction s as [|c s IH]; [reflexivity|]. simpl. intros H.
  apply andb_prop in H. destruct H as [Hc Hs]. now rewrite (Hpq c Hc), (IH Hs).
Qed.

Lemma valid_word_chars (u : string) :
  username_re_test u = true -> all_chars is_word_char u = true.
Proof.
  unfold username_re_test. intros H. apply andb_prop in H. now destruct H.
Qed.

Lemma valid_no_space (u : string) :
  username_re_test u = true -> all_chars (fun c => negb (is_space c)) u = true.
Proof.
  intros H. apply (all_chars_impl is_word_char); [|now apply valid_word_chars].
  intros c Hc. now destruct (word_char_plain c Hc) as (-> & _).
Qed.

Lemma clean_valid (u : string) : username_re_test u = true -> clean u = u.
Proof.
  intros Hv. pose proof (valid_no_space u Hv) as Hs.
  pose proof (valid_word_chars u Hv) as Hw.
  unfold clean, trim. destruct u as [|c u]; [discriminate Hv|].
  simpl in Hw, Hs. apply andb_prop in Hw, Hs.
  destruct Hw as [Hc _]. destruct (word_char_plain c Hc) as (Hsp & Hat & _).
  cbn [trimStart]. rewrite Hsp.
  rewrite trimEnd_no_space by (simpl; now rewrite Hsp, (proj2 Hs)).
  unfold startsWith. cbn [prefix].
  destruct (ascii_dec "@" c) as [<- | _]; [discriminate Hat | reflexivity].
Qed.

Lemma clean_padded (u ws1 ws2 : string) :
  username_re_test u = true ->
  all_chars is_space ws1 = true -> all_chars is_space ws2 = true ->
  clean (ws1 ++ u ++ ws2) = u.
Proof.
  intros Hv H1 H2. rewrite <- (clean_valid u Hv) at 2.
  unfold clean, trim. rewrite (trimStart_spaces ws1 _ H1).
  destruct u as [|c u]; [discriminate Hv|].
  pose proof (valid_word_chars _ Hv) as Hw. simpl in Hw.
  apply andb_prop in Hw. destruct Hw as [Hc _].
  destruct (word_char_plain c Hc) as (Hsp & _).
  change (String c u ++ ws2) with (String c (u ++ ws2)).
  cbn [trimStart]. rewrite Hsp.
  change (String c (u ++ ws2)) with (String c u ++ ws2).
  now rewrite (trimEnd_spaces _ _ H2).
Qed.

Lemma clean_at_padded (u ws1 ws2 : string) :
  username_re_test u = true ->
  all_chars is_space ws1 = true -> all_chars is_space ws2 = true ->
  clean (ws1 ++ "@" ++ u ++ ws2) = u.
Proof.
  intros Hv H1 H2. unfold clean, trim. rewrite (trimStart_spaces ws1 _ H1).
  change ("@" ++ u ++ ws2) with (String "@" (u ++ ws2)).
  cbn [trimStart]. change (is_space "@") with false. cbv iota.
  change (String "@" (u ++ ws2)) with (String "@" u ++ ws2).
  rewrite (trimEnd_spaces _ _ H2).
  rewrite trimEnd_no_space.
  - unfold startsWith. cbn [prefix substring1].
    destruct (ascii_dec "@" "@") as [_ | N]; [|now elim N].
    now destruct u.
  - simpl. now apply valid_no_space.
Qed.

Lemma encodeURIComponent_word (u : string) :
  all_chars is_word_char u = true -> encodeURIComponent u = u.
Proof.
  induction u as [|c u IH]; intros H; [reflexivity|].
  simpl in H. apply andb_prop in H. destruct H as [Hc Hu].
  destruct (word_char_plain c Hc) as (_ & _ & Hun).
  cbn [encodeURIComponent]. unfold encode_char. rewrite Hun, (IH Hu). reflexivity.
Qed.

End UsernameFacts.

(** X14: white space around the name and one [@] in front of it are
    ignored: for a name that matches the pattern, the padded forms clean
    to the name itself, and the route treats them exactly as the bare
    name. *)
Theorem X14_padding_and_at_sign_are_ignored :
  forall (h : host) (cfg : config) (u ws1 ws2 : string) (w : world),
    username_re_test u = true ->
    all_chars is_space ws1 = true ->
    all_chars is_space ws2 = true ->
    Proper.clean u = u
    /\ Proper.clean (ws1 ++ u ++ ws2) = u
    /\ Proper.clean (ws1 ++ "@" ++ u ++ ws2) = u
    /\ Proper.resolveShoutout h cfg (Some (ws1 ++ "@" ++ u ++ ws2)) w
       = Proper.resolveShoutout h cfg (Some u) w.
Proof.
  intros h cfg u ws1 ws2 w Hv H1 H2.
  pose proof (clean_valid u Hv) as E0.
  pose proof (clean_padded u ws1 ws2 Hv H1 H2) as E1.
  pose proof (clean_at_padded u ws1 ws2 Hv H1 H2) as E2.
  repeat split; auto.
  unfold Proper.resolveShoutout. now rewrite E0, E2.
Qed.

Lemma X14_witness :
  Proper.clean "shroud" = "shroud"
  /\ Proper.clean (" " ++ "shroud" ++ "  ") = "shroud"
  /\ Proper.clean (" " ++ "@" ++ "shroud" ++ "  ") = "shroud"
  /\ Proper.resolveShoutout (Samples.live_host "Valorant") Samples.cfg_ok
       (Some (" " ++ "@" ++ "shroud" ++ "  ")) initial
     = Proper.resolveShoutout (Samples.live_host "Valorant") Samples.cfg_ok
         (Some "shroud") initial.
Proof.
  exact (X14_padding_and_at_sign_are_ignored
           (Samples.live_host "Valorant") Samples.cfg_ok "shroud" " " "  " initial
           eq_refl eq_refl eq_refl).
Defined.

(** X15: [encodeURIComponent] produces unreserved characters and [%] only,
    whatever it is given, so a name can add neither a parameter nor a path
    segment to the lookup; and it leaves a name that matches the username
    pattern as it is, so that the user lookup of the route asks for
    [/helix/users?login=<username>]. *)
Theorem X15_encoded_login_is_inert :
  forall (h : host) (cfg : config) (s : string),
    all_chars (fun c => is_unreserved c || Ascii.eqb c "%") (encodeURIComponent s) = true
    /\ (username_re_test s = true ->
        encodeURIComponent s = s
        /\ Proper.getTwitchUser h cfg s
           = try_catch (bind (Proper.makeApiRequest h cfg ("/helix/users?login=" ++ s))
                             Proper.first_or_null)
                       (fun _ => ret VNull)).
Proof.
  intros h cfg s. split.
  - induction s as [|c s IH]; [reflexivity|].
    cbn [encodeURIComponent]. now rewrite all_chars_append, encode_char_alphabet, IH.
  - intros Hv. pose proof (encodeURIComponent_word s (valid_word_chars s Hv)) as E.
    split; [exact E|]. unfold Proper.getTwitchUser. now rewrite E.
Qed.

Lemma X15_witness :
  encodeURIComponent "shroud_99" = "shroud_99"
  /\ encodeURIComponent "a&b=c/d e" = "a%26b%3Dc%2Fd%20e".
Proof.
  split.
  - exact (proj1 (proj2 (X15_encoded_login_is_inert
                           Samples.dead_host Samples.cfg_ok "shroud_99") eq_refl)).
  - reflexivity.
Defined.

(** X16: once the user is found, the sentence follows the resolved
    category: a category name other than ["games"] is named in the
    specific sentence, and null gives the plain sentence; both carry the
    channel URL of the cleaned username. *)
Theorem X16_sentence_follows_the_category :
  forall (h : host) (cfg : config) (user : string) (u id game : value)
         (w w1 w2 : world),
    username_re_test (Proper.clean user) = true ->
    Proper.getTwitchUser h cfg (Proper.clean user) w = (Ok u, w1) ->
    truthy u = true ->
    get u "id" = Ok id ->
    Proper.getLastPlayedGame h cfg id w1 = (Ok game, w2) ->
    (game = VNull
     \/ exists g, game = VStr g /\ g <> EmptyString /\ g <> "games") ->
    Proper.resolveShoutout h cfg (Some user) w
    = (Ok match game with
          | VStr g => Proper.msg_playing (Proper.clean user) g
          | _ => Proper.msg_plain (Proper.clean user)
          end, w2).
Proof.
  intros h cfg user u id game w w1 w2 Hv Hu Ht Hid Hg Hgame.
  rewrite (resolveShoutout_found h cfg user u id game w w1 w2 Hv Hu Ht Hid Hg).
  destruct Hgame as [-> | (g & -> & Hne & Hng)]; [reflexivity|].
  unfold Proper.compose. cbn [truthy is_str].
  destruct g as [|c g]; [now elim Hne|].
  apply String.eqb_neq in Hng. rewrite Hng. reflexivity.
Qed.

Lemma X16_witness :
  Proper.resolveShoutout (Samples.live_host "Valorant") Samples.cfg_ok
    (Some "@shroud") initial
  = (Ok "Check out shroud, they are playing Valorant at https://twitch.tv/shroud!",
     snd (Proper.resolveShoutout (Samples.live_host "Valorant") Samples.cfg_ok
            (Some "@shroud") initial)).
Proof.
  refine (X16_sentence_follows_the_category
            (Samples.live_host "Valorant") Samples.cfg_ok "@shroud"
            (VObj [("id", VStr "42"); ("login", VStr "shroud")]) (VStr "42")
            (VStr "Valorant") initial _ _ eq_refl eq_refl eq_refl eq_refl eq_refl _).
  right. exists "Valorant". repeat split; discriminate.
Defined.

(** ** The debug route *)

Section DebugFacts.
Import Proper.
Variable h : host.
Variable cfg : config.

Lemma try_catch_reply {A} (c : M A) (f : error -> A) (w : world) :
  exists a w', try_catch c (fun e => ret (f e)) w = (Ok a, w').
Proof.
  unfold try_catch, ret. destruct (c w) as [[a|e] w']; eauto.
Qed.

Lemma debugShoutout_total (user : option string) (w : world) :
  exists r w', debugShoutout h cfg user w = (Ok r, w').
Proof.
  unfold debugShoutout. destruct (negb (str_truthy _)).
  - eexists _, _. reflexivity.
  - apply (try_catch_reply _ ErrorMessage).
Qed.

Lemma debugShoutout_budget (user : option string) :
  sends_at_most 14 (debugShoutout h cfg user).
Proof.
  unfold debugShoutout. destruct (negb (str_truthy _)).
  { apply (sends_weaken 0 14); [lia | sends_nothing]. }
  apply sends_guarded; [|intros; sends_nothing].
  apply (sends_bind 2 12); [apply getTwitchUser_budget|]. intros u.
  destruct (negb (truthy u)).
  { apply (sends_weaken 0 12); [lia | sends_nothing]. }
  apply sends_after_silent; [sends_nothing|]. intros id.
  apply (sends_bind 2 10); [apply getCurrentStream_budget|]. intros stream.
  apply (sends_bind 2 8); [apply getChannelInfo_budget|]. intros channelInfo.
  apply (sends_bind 2 6); [apply getRecentVideos_budget|]. intros videos.
  apply (sends_bind 6 0); [apply getLastPlayedGame_budget|]. intros lastGame.
  apply sends_after_silent; [sends_nothing|]. intros login.
  apply sends_after_silent; [sends_nothing|]. intros display_name.
  apply sends_after_silent.
  { destruct (truthy stream); [|sends_nothing].
    repeat (apply sends_after_silent; [sends_nothing | intros]). sends_nothing. }
  intros current_stream.
  apply sends_after_silent.
  { destruct (truthy channelInfo); [|sends_nothing].
    repeat (apply sends_after_silent; [sends_nothing | intros]). sends_nothing. }
  intros channel_info.
  apply sends_after_silent; [sends_nothing|]. intros recent.
  apply sends_after_silent; [sends_nothing | intros; sends_nothing].
Qed.

(** What a full report looks like. *)
Lemma debugShoutout_report (s : string) (body : value) (w w' : world) (g : value) :
  debugShoutout h cfg (Some s) w = (Ok (Json body), w') ->
  match body with VObj fields => own "detected_last_game" fields | _ => None end
  = Some g ->
  exists m,
    debug_message (remove_first_at s) g = Ok m
    /\ match body with VObj fields => own "final_message" fields | _ => None end
       = Some (VStr m).
Proof.
  unfold debugShoutout. destruct (negb (str_truthy s)).
  { intros [= <- _]. discriminate. }
  unfold try_catch, bind at 1.
  destruct (getTwitchUser h cfg (remove_first_at s) w) as [[u|e] w1];
    [|intros [=]].
  destruct (negb (truthy u)).
  { intros [= <- _]. discriminate. }
  unfold bind at 1, lift. destruct (get u "id") as [id|e]; [|intros [=]].
  unfold bind at 1.
  destruct (getCurrentStream h cfg id w1) as [[stream|e] w2]; [|intros [=]].
  unfold bind at 1.
  destruct (getChannelInfo h cfg id w2) as [[channelInfo|e] w3]; [|intros [=]].
  unfold bind at 1.
  destruct (getRecentVideos h cfg id w3) as [[videos|e] w4]; [|intros [=]].
  unfold bind at 1.
  destruct (getLastPlayedGame h cfg id w4) as [[lastGame|e] w5]; [|intros [=]].
  unfold bind at 1. destruct (get u "login") as [login|e]; [|intros [=]].
  unfold bind at 1. destruct (get u "display_name") as [dn|e]; [|intros [=]].
  unfold bind at 1.
  match goal with
  | |- context [match ?c w5 with _ => _ end] =>
      destruct (c w5) as [[current_stream|e] w6]; [|intros [=]]
  end.
  unfold bind at 1.
  match goal with
  | |- context [match ?c w6 with _ => _ end] =>
      destruct (c w6) as [[channel_info|e] w7]; [|intros [=]]
  end.
  unfold bind at 1. destruct (recent_videos videos) as [recent|e]; [|intros [=]].
  unfold bind, ret.
  destruct (debug_message (remove_first_at s) lastGame) as [m|e] eqn:Em;
    [|intros [=]].
  intros [= <- _]. cbn. intros [= <-]. exists m. auto.
Qed.

End DebugFacts.

Section DebugInput.
Import Proper.

Lemma remove_first_at_none (s : string) :
  all_chars (fun c => negb (Ascii.eqb c "@")) s = true -> remove_first_at s = s.
Proof.
  induction s as [|c s IH]; intros H; [reflexivity|].
  simpl in H. apply andb_prop in H. destruct H as [Hc Hs].
  apply negb_true_iff in Hc. cbn [remove_first_at]. now rewrite Hc, (IH Hs).
Qed.

Lemma remove_first_at_inner (a b : string) :
  all_chars (fun c => negb (Ascii.eqb c "@")) a = true ->
  remove_first_at (a ++ "@" ++ b) = a ++ b.
Proof.
  induction a as [|c a IH]; intros H; [reflexivity|].
  simpl in H. apply andb_prop in H. destruct H as [Hc Ha].
  apply negb_true_iff in Hc.
  change (remove_first_at (String c (a ++ "@" ++ b)) = String c (a ++ b)).
  cbn [remove_first_at]. now rewrite Hc, (IH Ha).
Qed.

End DebugInput.

(** X17: the debug route always answers and never throws.  Without a
    username it answers [{ error: 'No username provided' }] and sends
    nothing; when the user lookup yields nothing it answers [{ error: 'User
    not found' }]; and in every case it sends at most fourteen requests. *)
Theorem X17_debug_route_always_answers :
  forall (h : host) (cfg : config) (user : option string) (w : world),
    (exists r w', Proper.debugShoutout h cfg user w = (Ok r, w'))
    /\ sends_at_most 14 (Proper.debugShoutout h cfg user)
    /\ (user = None \/ user = Some EmptyString ->
        Proper.debugShoutout h cfg user w
        = (Ok (Proper.Json (VObj [("error", VStr "No username provided")])), w))
    /\ (forall s u w1,
          user = Some s -> s <> EmptyString ->
          Proper.getTwitchUser h cfg (Proper.remove_first_at s) w = (Ok u, w1) ->
          truthy u = false ->
          Proper.debugShoutout h cfg user w
          = (Ok (Proper.Json (VObj [("error", VStr "User not found")])), w1)).
Proof.
  intros h cfg user w.
  split; [apply debugShoutout_total|].
  split; [apply debugShoutout_budget|].
  split.
  - intros [-> | ->]; reflexivity.
  - intros s u w1 -> Hs Hu Ht. unfold Proper.debugShoutout.
    destruct s as [|c s]; [now elim Hs|]. cbn [str_truthy negb].
    unfold try_catch, bind. now rewrite Hu, Ht.
Qed.

Lemma X17_witness :
  Proper.debugShoutout Samples.dead_host Samples.cfg_ok (Some "ninja") initial
  = (Ok (Proper.Json (VObj [("error", VStr "User not found")])),
     snd (Proper.getTwitchUser Samples.dead_host Samples.cfg_ok "ninja" initial)).
Proof.
  destruct (X17_debug_route_always_answers
              Samples.dead_host Samples.cfg_ok (Some "ninja") initial)
    as (_ & _ & _ & H).
  apply (H "ninja" VNull); [reflexivity | discriminate | reflexivity | reflexivity].
Defined.

(** X18: in a full report of the debug route, [final_message] is the
    specific sentence for every truthy [detected_last_game] and the plain
    sentence otherwise.  The generic marker ["games"] gets no sentence of
    its own there: the report says "they are playing games", which is not
    what the shoutout route sends for it. *)
Theorem X18_debug_sentence_names_the_marker :
  forall (h : host) (cfg : config) (s : string) (fields : list (string * value))
         (g : value) (w w' : world),
    Proper.debugShoutout h cfg (Some s) w = (Ok (Proper.Json (VObj fields)), w') ->
    own "detected_last_game" fields = Some g ->
    exists m,
      own "final_message" fields = Some (VStr m)
      /\ Proper.debug_message (Proper.remove_first_at s) g = Ok m
      /\ (truthy g = false -> m = Proper.msg_plain (Proper.remove_first_at s))
      /\ (g = VStr "games" ->
          m = Proper.msg_playing (Proper.remove_first_at s) "games"
          /\ m <> Proper.msg_gaming (Proper.remove_first_at s)).
Proof.
  intros h cfg s fields g w w' Hd Hg.
  destruct (debugShoutout_report h cfg s (VObj fields) w w' g Hd Hg)
    as (m & Hm & Hf).
  exists m. split; [exact Hf|]. split; [exact Hm|]. split.
  - intros Ht. unfold Proper.debug_message in Hm. rewrite Ht in Hm.
    now injection Hm as <-.
  - intros ->. unfold Proper.debug_message in Hm. cbn [truthy to_string] in Hm.
    injection Hm as <-. split; [reflexivity|].
    unfold Proper.msg_gaming, Proper.msg_playing. intros E.
    apply append_inj_l, append_inj_l in E. discriminate E.
Qed.

Lemma X18_witness :
  exists m,
    own "final_message" Samples.offline_report = Some (VStr m)
    /\ Proper.debug_message (Proper.remove_first_at "quietviewer") (VStr "games") = Ok m
    /\ (truthy (VStr "games") = false ->
        m = Proper.msg_plain (Proper.remove_first_at "quietviewer"))
    /\ (VStr "games" = VStr "games" ->
        m = Proper.msg_playing (Proper.remove_first_at "quietviewer") "games"
        /\ m <> Proper.msg_gaming (Proper.remove_first_at "quietviewer")).
Proof.
  assert (Hd : Proper.debugShoutout Samples.offline_host Samples.cfg_ok
                 (Some "quietviewer") initial
               = (Ok (Proper.Json (VObj Samples.offline_report)),
                  snd (Proper.debugShoutout Samples.offline_host Samples.cfg_ok
                         (Some "quietviewer") initial))).
  { vm_compute. reflexivity. }
  exact (X18_debug_sentence_names_the_marker
           Samples.offline_host Samples.cfg_ok "quietviewer"
           Samples.offline_report (VStr "games") initial _ Hd eq_refl).
Defined.

(** X19: the debug route neither trims nor validates: it removes the first
    [@] of its input, wherever that stands, and looks up what is left.  An
    input with one [@] inside is served exactly like the same input
    without it. *)
Theorem X19_debug_route_drops_an_inner_at_sign :
  forall (h : host) (cfg : config) (a b : string) (w : world),
    all_chars (fun c => negb (Ascii.eqb c "@")) a = true ->
    all_chars (fun c => negb (Ascii.eqb c "@")) b = true ->
    a ++ b <> EmptyString ->
    Proper.remove_first_at (a ++ "@" ++ b) = a ++ b
    /\ Proper.debugShoutout h cfg (Some (a ++ "@" ++ b)) w
       = Proper.debugShoutout h cfg (Some (a ++ b)) w.
Proof.
  intros h cfg a b w Ha Hb Hne.
  pose proof (remove_first_at_inner a b Ha) as E1.
  assert (E2 : Proper.remove_first_at (a ++ b) = a ++ b).
  { apply remove_first_at_none. now rewrite all_chars_append, Ha, Hb. }
  split; [exact E1|]. unfold Proper.debugShoutout. rewrite E1, E2.
  assert (H1 : str_truthy (a ++ "@" ++ b) = true) by (now destruct a).
  assert (H2 : str_truthy (a ++ b) = true).
  { destruct (a ++ b); [now elim Hne | reflexivity]. }
  now rewrite H1, H2.
Qed.

Lemma X19_witness :
  Proper.remove_first_at ("shr" ++ "@" ++ "oud") = "shr" ++ "oud"
  /\ Proper.debugShoutout (Samples.live_host "Valorant") Samples.cfg_ok
       (Some ("shr" ++ "@" ++ "oud")) initial
     = Proper.debugShoutout (Samples.live_host "Valorant") Samples.cfg_ok
         (Some ("shr" ++ "oud")) initial.
Proof.
  apply (X19_debug_route_drops_an_inner_at_sign
           (Samples.live_host "Valorant") Samples.cfg_ok "shr" "oud" initial);
    [reflexivity | reflexivity | discriminate].
Defined.

(** ** The lookups that do not await their promise *)

Section UnawaitedFacts.
Variable h : host.
Variable cfg : config.

Lemma guarded_token_fails (d : value) (k : value -> M value) (e : error)
      (w w1 : world) :
  Proper.getTwitchToken h cfg w = (Throw e, w1) ->
  Unawaited.guarded h cfg d k w = (Ok d, w1).
Proof.
  intros H. unfold Unawaited.guarded, bind, try_catch. now rewrite H.
Qed.

Lemma guarded_token_ok (d : value) (k : value -> M value) (tok : value)
      (w w1 : world) :
  Proper.getTwitchToken h cfg w = (Ok tok, w1) ->
  Unawaited.guarded h cfg d k w = k tok w1.
Proof.
  intros H. unfold Unawaited.guarded, bind, try_catch. now rewrite H.
Qed.

(** The same user lookup in both styles, when the request itself fails. *)
Lemma user_lookup_transport (username bearer : string) (tok : value)
      (w w1 : world) :
  let r := Get "api.twitch.tv" ("/helix/users?login=" ++ encodeURIComponent username)
               ("Bearer " ++ bearer) (TWITCH_CLIENT_ID cfg) in
  let w2 := {| twitchToken := twitchToken w1; tokenExpiry := tokenExpiry w1;
               ticks := ticks w1; log := log w1 ++ [r] |} in
  Proper.getTwitchToken h cfg w = (Ok tok, w1) ->
  to_string tok = Some bearer ->
  net h (length (log w1)) r = Failed \/ net h (length (log w1)) r = Unparseable ->
  (exists e, Unawaited.getTwitchUser h cfg username w = (Throw e, w2))
  /\ Proper.getTwitchUser h cfg username w = (Ok VNull, w2).
Proof.
  intros r w2 Htok Hb Hnet. split.
  - unfold Unawaited.getTwitchUser. rewrite (guarded_token_ok _ _ tok w w1 Htok).
    unfold Unawaited.promise, bind, lift_string, ret, https_request.
    rewrite Hb. cbv beta iota. fold r.
    destruct Hnet as [-> | ->]; eexists; reflexivity.
  - unfold Proper.getTwitchUser, Proper.makeApiRequest, try_catch, bind.
    rewrite Htok, Hb. unfold lift_string, ret, https_request. cbv beta iota.
    fold r. destruct Hnet as [-> | ->]; reflexivity.
Qed.

End UnawaitedFacts.

(** X20: the user lookup of the Simple and Enhanced variants guards only
    the token.  When the token is obtained and the lookup request then
    fails in transport or comes back unparseable, that lookup throws,
    while the lookup of the first variant, on the same inputs, returns
    null; both leave the same state behind. *)
Theorem X20_unawaited_lookup_lets_transport_errors_through :
  forall (h : host) (cfg : config) (username bearer : string) (tok : value)
         (w w1 : world),
    let r := Get "api.twitch.tv" ("/helix/users?login=" ++ encodeURIComponent username)
                 ("Bearer " ++ bearer) (TWITCH_CLIENT_ID cfg) in
    Proper.getTwitchToken h cfg w = (Ok tok, w1) ->
    to_string tok = Some bearer ->
    net h (length (log w1)) r = Failed \/ net h (length (log w1)) r = Unparseable ->
    exists e w2,
      Unawaited.getTwitchUser h cfg username w = (Throw e, w2)
      /\ Proper.getTwitchUser h cfg username w = (Ok VNull, w2).
Proof.
  intros h cfg username bearer tok w w1 r Htok Hb Hnet.
  destruct (user_lookup_transport h cfg username bearer tok w w1 Htok Hb Hnet)
    as [[e He] Hp].
  eexists e, _. split; [exact He | exact Hp].
Qed.

Lemma X20_witness :
  exists e w2,
    Unawaited.getTwitchUser Samples.flaky_host Samples.cfg_ok "ninja" initial
    = (Throw e, w2)
    /\ Proper.getTwitchUser Samples.flaky_host Samples.cfg_ok "ninja" initial
       = (Ok VNull, w2).
Proof.
  exact (X20_unawaited_lookup_lets_transport_errors_through
           Samples.flaky_host Samples.cfg_ok "ninja" "token" (VStr "token")
           initial _ eq_refl eq_refl (or_introl eq_refl)).
Defined.

Section SimpleFacts.
Variable h : host.
Variable cfg : config.

Lemma simple_valid (user : string) :
  username_re_test (Proper.clean user) = true ->
  Simple.resolveShoutout h cfg (Some user)
  = try_catch
      (bind (Simple.getTwitchUser h cfg (Proper.clean user)) (fun u =>
         if negb (truthy u) then ret (Proper.msg_not_found (Proper.clean user))
         else bind (lift (get u "id")) (fun id =>
              bind (Simple.getCurrentStream h cfg id) (fun stream =>
              bind (lift (Simple.optional_get stream "game_name")) (fun game =>
              if truthy game then
                bind (lift_string (to_string game)) (fun g =>
                ret (Proper.msg_playing (Proper.clean user) g))
              else ret (Proper.msg_plain (Proper.clean user)))))))
      (fun _ => ret (Proper.msg_plain (Proper.clean user))).
Proof.
  intros Hv. unfold Simple.resolveShoutout.
  now rewrite Hv, (valid_truthy _ Hv).
Qed.

Lemma bind_shape_any {A B} (P : B -> Prop) (c : M A) (k : A -> M B) :
  (forall a w v w', k a w = (Ok v, w') -> P v) ->
  forall w v w', bind c k w = (Ok v, w') -> P v.
Proof.
  intros Hk w v w'. unfold bind.
  destruct (c w) as [[a|e] w1]; [apply Hk | discriminate].
Qed.

Lemma guarded_shape_any {A} (P : A -> Prop) (c : M A) (d : A) :
  P d ->
  (forall w v w', c w = (Ok v, w') -> P v) ->
  forall w, exists v w', try_catch c (fun _ => ret d) w = (Ok v, w') /\ P v.
Proof.
  intros Hd Hc w. unfold try_catch, ret.
  destruct (c w) as [[v|e] w1] eqn:E; eauto.
Qed.

End SimpleFacts.

(** X21: the route of the Simple variant always answers a valid username
    with a non-empty sentence, which is the "not found" sentence or
    contains the channel URL.  It shows whatever category a live stream
    has: the specific sentence names every non-empty [game_name],
    ["Just Chatting"] and ["games"] included. *)
Theorem X21_simple_route_shows_any_live_category :
  forall (h : host) (cfg : config) (user : string) (w : world),
    username_re_test (Proper.clean user) = true ->
    (exists m w',
       Simple.resolveShoutout h cfg (Some user) w = (Ok m, w')
       /\ m <> EmptyString
       /\ (m = Proper.msg_not_found (Proper.clean user)
           \/ includes m (Proper.channel_url (Proper.clean user)) = true))
    /\ forall u id stream g w1 w2,
         Simple.getTwitchUser h cfg (Proper.clean user) w = (Ok u, w1) ->
         truthy u = true ->
         get u "id" = Ok id ->
         Simple.getCurrentStream h cfg id w1 = (Ok stream, w2) ->
         get stream "game_name" = Ok (VStr g) ->
         g <> EmptyString ->
         Simple.resolveShoutout h cfg (Some user) w
         = (Ok (Proper.msg_playing (Proper.clean user) g), w2).
Proof.
  intros h cfg user w Hv. rewrite (simple_valid h cfg user Hv). split.
  - set (P := fun m : string =>
                m <> EmptyString
                /\ (m = Proper.msg_not_found (Proper.clean user)
                    \/ includes m (Proper.channel_url (Proper.clean user)) = true)).
    assert (Hplain : P (Proper.msg_plain (Proper.clean user))).
    { split; [discriminate | right; apply msg_plain_url]. }
    apply (guarded_shape_any P); [exact Hplain|].
    apply bind_shape_any. intros u.
    destruct (negb (truthy u)).
    { intros w0 v w' [= <- _]. split; [discriminate | now left]. }
    apply bind_shape_any. intros id. apply bind_shape_any. intros stream.
    apply bind_shape_any. intros game.
    destruct (truthy game).
    + apply bind_shape_any. intros g w0 v w' [= <- _].
      split; [discriminate | right; apply msg_playing_url].
    + intros w0 v w' [= <- _]. exact Hplain.
  - intros u id stream g w1 w2 Hu Ht Hid Hs Hg Hne.
    unfold try_catch, bind at 1. rewrite Hu, Ht. cbn [negb].
    unfold bind at 1, lift. rewrite Hid. unfold bind at 1. rewrite Hs.
    assert (Ho : Simple.optional_get stream "game_name" = Ok (VStr g)).
    { destruct stream; try discriminate Hg; exact Hg. }
    unfold bind at 1. rewrite Ho.
    destruct g as [|c g]; [now elim Hne|]. reflexivity.
Qed.

Lemma X21_witness :
  Simple.resolveShoutout (Samples.live_host "Just Chatting") Samples.cfg_ok
    (Some "shroud") initial
  = (Ok "Check out shroud, they are playing Just Chatting at https://twitch.tv/shroud!",
     snd (Simple.resolveShoutout (Samples.live_host "Just Chatting") Samples.cfg_ok
            (Some "shroud") initial)).
Proof.
  destruct (X21_simple_route_shows_any_live_category
              (Samples.live_host "Just Chatting") Samples.cfg_ok "shroud" initial
              eq_refl) as [_ H].
  refine (H (VObj [("id", VStr "42"); ("login", VStr "shroud")]) (VStr "42")
            (VObj [("game_name", VStr "Just Chatting")]) "Just Chatting"
            _ _ eq_refl eq_refl eq_refl eq_refl eq_refl _).
  discriminate.
Defined.

(** X22: how the Simple route degrades.  When the token cannot be
    obtained (missing credentials, failed exchange) a valid username gets
    the "not found" sentence; when the token is there and the user lookup
    request fails, it gets the plain sentence with the channel URL, where
    the route of the first variant, on the same inputs, says "not
    found". *)
Theorem X22_simple_route_degrades_to_the_plain_sentence :
  forall (h : host) (cfg : config) (user bearer : string) (tok : value)
         (w w1 : world),
    let username := Proper.clean user in
    let r := Get "api.twitch.tv" ("/helix/users?login=" ++ encodeURIComponent username)
                 ("Bearer " ++ bearer) (TWITCH_CLIENT_ID cfg) in
    username_re_test username = true ->
    (forall e, Proper.getTwitchToken h cfg w = (Throw e, w1) ->
               Simple.resolveShoutout h cfg (Some user) w
               = (Ok (Proper.msg_not_found username), w1))
    /\ (Proper.getTwitchToken h cfg w = (Ok tok, w1) ->
        to_string tok = Some bearer ->
        net h (length (log w1)) r = Failed \/ net h (length (log w1)) r = Unparseable ->
        fst (Simple.resolveShoutout h cfg (Some user) w) = Ok (Proper.msg_plain username)
        /\ fst (Proper.resolveShoutout h cfg (Some user) w)
           = Ok (Proper.msg_not_found username)).
Proof.
  intros h cfg user bearer tok w w1 username r Hv. split.
  - intros e He. rewrite (simple_valid h cfg user Hv).
    unfold try_catch, bind, Simple.getTwitchUser, Unawaited.getTwitchUser.
    now rewrite (guarded_token_fails h cfg _ _ e w w1 He).
  - intros Htok Hb Hnet.
    destruct (user_lookup_transport h cfg username bearer tok w w1 Htok Hb Hnet)
      as [[e He] Hp].
    split.
    + rewrite (simple_valid h cfg user Hv).
      unfold try_catch, bind, Simple.getTwitchUser. fold username.
      now rewrite He.
    + fold username in Hp.
      now rewrite (resolveShoutout_not_found h cfg user VNull w _ Hv Hp eq_refl).
Qed.

Lemma X22_witness :
  fst (Simple.resolveShoutout Samples.flaky_host Samples.cfg_ok (Some "ninja") initial)
  = Ok (Proper.msg_plain "ninja")
  /\ fst (Proper.resolveShoutout Samples.flaky_host Samples.cfg_ok (Some "ninja") initial)
     = Ok (Proper.msg_not_found "ninja").
Proof.
  destruct (X22_simple_route_degrades_to_the_plain_sentence
              Samples.flaky_host Samples.cfg_ok "ninja" "token" (VStr "token")
              initial
              (snd (Proper.getTwitchToken Samples.flaky_host Samples.cfg_ok initial))
              eq_refl) as [_ H].
  exact (H eq_refl eq_refl (or_introl eq_refl)).
Defined.

(** ** The Enhanced variant *)

Section EnhancedFacts.
Import Enhanced.

Lemma pick_In (draw : nat) (l : list string) : l <> [] -> In (pick draw l) l.
Proof.
  intros Hl. unfold pick. apply nth_In. apply Nat.mod_upper_bound.
  destruct l; [now elim Hl | discriminate].
Qed.

Lemma prefix_weaken (t s b : string) :
  prefix t s = true -> prefix t (s ++ b) = true.
Proof.
  revert s. induction t as [|x t IH]; intros s H.
  - now destruct (s ++ b).
  - destruct s as [|y s]; [discriminate H|].
    change (prefix (String x t) (String y (s ++ b)) = true).
    cbn [prefix] in H |- *.
    destruct (ascii_dec x y); [now apply IH | discriminate H].
Qed.

Lemma includes_app_l (s t b : string) :
  includes s t = true -> includes (s ++ b) t = true.
Proof.
  induction s as [|x s IH]; intros H.
  - cbn [includes] in H. destruct (prefix t EmptyString) eqn:E; [|discriminate H].
    apply includes_prefix. now apply (prefix_weaken t EmptyString b).
  - change (includes (String x (s ++ b)) t = true).
    cbn [includes] in H |- *.
    destruct (prefix t (String x s)) eqn:E.
    + change (String x (s ++ b)) with (String x s ++ b).
      now rewrite (prefix_weaken _ _ b E).
    + destruct (prefix t (String x (s ++ b))); [reflexivity | now apply IH].
Qed.

Lemma includes_refl (t : string) : includes t t = true.
Proof.
  apply includes_prefix. induction t as [|x t IH]; [reflexivity|].
  cbn [prefix]. destruct (ascii_dec x x) as [_ | N]; [exact IH | now elim N].
Qed.

Lemma baseMessages_name (username base : string) :
  In base (baseMessages username) ->
  includes base username = true /\ base <> EmptyString.
Proof.
  unfold baseMessages. cbn [In].
  intros [<- | [<- | [<- | [<- | [<- | []]]]]]; split; try discriminate.
  - apply includes_skip, includes_refl.
  - apply includes_skip, includes_refl.
  - apply includes_skip, includes_head.
  - apply includes_skip, includes_refl.
  - apply includes_skip, includes_refl.
Qed.

Lemma variant_facts (base g m : string) (isLive : bool) :
  In m (if isLive then liveMessages base g else recentMessages base g) ->
  m <> EmptyString ->
  includes m g = true
  /\ forall t, includes base t = true -> includes m t = true.
Proof.
  intros Hm _. split.
  - destruct isLive; cbn [In liveMessages recentMessages] in Hm;
      destruct Hm as [<- | [<- | [<- | []]]];
      apply includes_skip, includes_skip, includes_head.
  - intros t Ht.
    destruct isLive; cbn [In liveMessages recentMessages] in Hm;
      destruct Hm as [<- | [<- | [<- | []]]]; now apply includes_app_l.
Qed.

Lemma fallbacks_url (username m : string) :
  In m (fallbacks username) ->
  m <> EmptyString /\ includes m (Proper.channel_url username) = true.
Proof.
  unfold fallbacks, Proper.channel_url. cbn [In].
  intros [<- | [<- | [<- | []]]]; split; try discriminate.
  - change ("Check out " ++ username ++ " at https://twitch.tv/" ++ username ++ "!")
      with ("Check out " ++ username ++ " at " ++ ("https://twitch.tv/" ++ username) ++ "!").
    do 3 apply includes_skip. apply includes_head.
  - change ("Show some love to " ++ username ++ " at https://twitch.tv/" ++ username ++ "!")
      with ("Show some love to " ++ username ++ " at "
            ++ ("https://twitch.tv/" ++ username) ++ "!").
    do 3 apply includes_skip. apply includes_head.
  - change ("Give " ++ username ++ " a follow at https://twitch.tv/" ++ username ++ "!")
      with ("Give " ++ username ++ " a follow at "
            ++ ("https://twitch.tv/" ++ username) ++ "!").
    do 3 apply includes_skip. apply includes_head.
Qed.

Lemma with_url (message username : string) :
  message ++ " at https://twitch.tv/" ++ username <> EmptyString
  /\ includes (message ++ " at https://twitch.tv/" ++ username)
              (Proper.channel_url username) = true.
Proof.
  split.
  - destruct message; discriminate.
  - unfold Proper.channel_url.
    change (message ++ " at https://twitch.tv/" ++ username)
      with (message ++ " at " ++ ("https://twitch.tv/" ++ username)).
    do 2 apply includes_skip. apply includes_refl.
Qed.

End EnhancedFacts.

(** X23: the random numbers choose the wording of [getRandomMessage] and
    nothing else.  For a category that is a non-empty string, whatever the
    two numbers drawn, the message is one of the three of the family the
    liveness selects, built on one of the five base phrases, and it
    contains the username and the category; without a category it is the
    base phrase followed by [", great content creator!"]. *)
Theorem X23_random_numbers_choose_the_wording_only :
  forall (draw1 draw2 : nat) (username g : string) (isLive : bool),
    g <> EmptyString ->
    exists base m,
      In base (Enhanced.baseMessages username)
      /\ Enhanced.getRandomMessage draw1 draw2 username (VStr g) isLive = Ok m
      /\ In m (if isLive then Enhanced.liveMessages base g
               else Enhanced.recentMessages base g)
      /\ includes m username = true
      /\ includes m g = true
      /\ Enhanced.getRandomMessage draw1 draw2 username VNull isLive
         = Ok (base ++ ", great content creator!").
Proof.
  intros draw1 draw2 username g isLive Hg.
  set (base := Enhanced.pick draw1 (Enhanced.baseMessages username)).
  assert (Hbase : In base (Enhanced.baseMessages username)).
  { apply pick_In. discriminate. }
  set (family := if isLive then Enhanced.liveMessages base g
                 else Enhanced.recentMessages base g).
  assert (Hm : In (Enhanced.pick draw2 family) family).
  { apply pick_In. unfold family. destruct isLive; discriminate. }
  exists base, (Enhanced.pick draw2 family).
  destruct (baseMessages_name username base Hbase) as [Hname _].
  assert (Hne : Enhanced.pick draw2 family <> EmptyString).
  { intros E. rewrite E in Hm. unfold family in Hm.
    destruct isLive; cbn [In Enhanced.liveMessages Enhanced.recentMessages] in Hm;
      destruct Hm as [H | [H | [H | []]]]; destruct base; discriminate H. }
  destruct (variant_facts base g _ isLive Hm Hne) as [Hgame Hkeep].
  split; [exact Hbase|]. split.
  { unfold Enhanced.getRandomMessage. fold base.
    assert (Ht : truthy (VStr g) = true) by (destruct g; [now elim Hg | reflexivity]).
    rewrite Ht. cbn [to_string]. unfold family. now destruct isLive. }
  split; [exact Hm|]. split; [now apply Hkeep|]. split; [exact Hgame|].
  unfold Enhanced.getRandomMessage. fold base. cbn [truthy]. now rewrite andb_false_r.
Qed.

Lemma X23_witness :
  exists base m,
    In base (Enhanced.baseMessages "shroud")
    /\ Enhanced.getRandomMessage 7 4 "shroud" (VStr "Valorant") true = Ok m
    /\ In m (Enhanced.liveMessages base "Valorant")
    /\ includes m "shroud" = true
    /\ includes m "Valorant" = true
    /\ Enhanced.getRandomMessage 7 4 "shroud" VNull true
       = Ok (base ++ ", great content creator!").
Proof.
  apply (X23_random_numbers_choose_the_wording_only 7 4 "shroud" "Valorant" true).
  discriminate.
Defined.

(** X24: the route of the Enhanced variant answers every valid username,
    whatever the upstream does and whatever numbers are drawn, with a
    non-empty sentence that is the "not found" sentence or contains the
    channel URL.  When the token is obtained and the user lookup request
    then fails, the answer is the fallback the third number selects, one
    of three. *)
Theorem X24_enhanced_route_always_answers :
  forall (h : host) (cfg : config) (draw1 draw2 draw3 : nat) (user bearer : string)
         (tok : value) (w w1 : world),
    let username := Proper.clean user in
    let r := Get "api.twitch.tv" ("/helix/users?login=" ++ encodeURIComponent username)
                 ("Bearer " ++ bearer) (TWITCH_CLIENT_ID cfg) in
    username_re_test username = true ->
    (exists m w',
       Enhanced.resolveShoutout h cfg draw1 draw2 draw3 (Some user) w = (Ok m, w')
       /\ m <> EmptyString
       /\ (m = Proper.msg_not_found username
           \/ includes m (Proper.channel_url username) = true))
    /\ (Proper.getTwitchToken h cfg w = (Ok tok, w1) ->
        to_string tok = Some bearer ->
        net h (length (log w1)) r = Failed \/ net h (length (log w1)) r = Unparseable ->
        fst (Enhanced.resolveShoutout h cfg draw1 draw2 draw3 (Some user) w)
        = Ok (Enhanced.pick draw3 (Enhanced.fallbacks username))
        /\ In (Enhanced.pick draw3 (Enhanced.fallbacks username))
              (Enhanced.fallbacks username)).
Proof.
  intros h cfg draw1 draw2 draw3 user bearer tok w w1 username r Hv.
  assert (Hfb : In (Enhanced.pick draw3 (Enhanced.fallbacks username))
                   (Enhanced.fallbacks username)).
  { apply pick_In. discriminate. }
  unfold Enhanced.resolveShoutout. fold username.
  rewrite Hv, (valid_truthy _ Hv). cbn [negb]. split.
  - set (P := fun m : string =>
                m <> EmptyString
                /\ (m = Proper.msg_not_found username
                    \/ includes m (Proper.channel_url username) = true)).
    apply (guarded_shape_any P).
    { destruct (fallbacks_url _ _ Hfb) as [Hne Hurl]. split; [exact Hne | now right]. }
    apply bind_shape_any. intros u.
    destruct (negb (truthy u)).
    { intros w0 v w' [= <- _]. split; [discriminate | now left]. }
    apply bind_shape_any. intros id. apply bind_shape_any. intros found.
    apply bind_shape_any. intros message w0 v w' [= <- _].
    destruct (with_url message username) as [Hne Hurl].
    split; [exact Hne | now right].
  - intros Htok Hb Hnet. split; [|exact Hfb].
    destruct (user_lookup_transport h cfg username bearer tok w w1 Htok Hb Hnet)
      as [[e He] _].
    unfold try_catch, bind, Enhanced.getTwitchUser. now rewrite He.
Qed.

Lemma X24_witness :
  fst (Enhanced.resolveShoutout Samples.flaky_host Samples.cfg_ok 1 2 5
         (Some "ninja") initial)
  = Ok "Give ninja a follow at https://twitch.tv/ninja!".
Proof.
  destruct (X24_enhanced_route_always_answers
              Samples.flaky_host Samples.cfg_ok 1 2 5 "ninja" "token" (VStr "token")
              initial
              (snd (Proper.getTwitchToken Samples.flaky_host Samples.cfg_ok initial))
              eq_refl) as [_ H].
  exact (proj1 (H eq_refl eq_refl (or_introl eq_refl))).
Defined.

(** ** Titles *)

Section TitleFacts.

Lemma lower_char_idempotent (c : ascii) : lower_char (lower_char c) = lower_char c.
Proof. destruct c as [[] [] [] [] [] [] [] []]; vm_compute; reflexivity. Qed.

Lemma toLowerCase_idempotent (s : string) :
  toLowerCase (toLowerCase s) = toLowerCase s.
Proof.
  induction s as [|c s IH]; [reflexivity|].
  cbn [toLowerCase]. now rewrite lower_char_idempotent, IH.
Qed.

Lemma first_game_lower (t : string) (games : list string) :
  Enhanced.first_game (VStr (toLowerCase t)) games
  = Enhanced.first_game (VStr t) games.
Proof.
  induction games as [|g rest IH]; [reflexivity|].
  cbn [Enhanced.first_game Proper.as_string rbind].
  now rewrite toLowerCase_idempotent, IH.
Qed.

(** The first entry of the list that the title contains is the one
    returned. *)
Lemma first_game_first (t : string) (games : list string) (g : value) :
  Enhanced.first_game (VStr t) games = Ok g ->
  g = VNull
     /\ Forall (fun x => includes (toLowerCase t) (toLowerCase x) = false) games
  \/ exists before name after,
       g = VStr name /\ games = (before ++ name :: after)%list
       /\ Forall (fun x => includes (toLowerCase t) (toLowerCase x) = false) before
       /\ includes (toLowerCase t) (toLowerCase name) = true.
Proof.
  revert g. induction games as [|x rest IH]; intros g.
  - intros [= <-]. left. split; [reflexivity | constructor].
  - cbn [Enhanced.first_game Proper.as_string rbind].
    destruct (includes (toLowerCase t) (toLowerCase x)) eqn:E.
    + intros [= <-]. right. exists [], x, rest. repeat split; auto.
    + intros H. destruct (IH g H) as [[-> Hall] | (before & name & after & -> & -> & Hb & Hi)].
      * left. split; [reflexivity | now constructor].
      * right. exists (x :: before), name, after. repeat split; auto.
Qed.

End TitleFacts.

(** X25: the Enhanced variant sniffs the most recent broadcast only: what
    follows the first record of the list never changes the result, even
    when a later title names a game and the first does not. *)
Theorem X25_only_the_most_recent_title_is_sniffed :
  forall (h : host) (video : value) (older : list value),
    Enhanced.sniff h (VArr (video :: older)) = Enhanced.sniff h (VArr [video]).
Proof.
  intros h video older. unfold Enhanced.sniff, rbind.
  cbn [Enhanced.get_length to_number num_gt num_lt].
  assert (H1 : (0 <? Z.of_nat (length (video :: older)))%Z = true).
  { apply Z.ltb_lt. cbn [length]. lia. }
  rewrite H1. reflexivity.
Qed.

(** X26: the case of a title does not matter, in either variant.  The scan
    of the first variant treats a record the same whether its title is
    given as written or in lower case, and the Enhanced sniffing returns,
    for a title as written or in lower case, the first entry of its
    allowlist that the lower-cased title contains. *)
Theorem X26_titles_are_compared_without_case :
  forall (t duration : string),
    Proper.check_video (Proper.archive duration (toLowerCase t))
    = Proper.check_video (Proper.archive duration t)
    /\ Enhanced.first_game (VStr (toLowerCase t)) Enhanced.commonGames
       = Enhanced.first_game (VStr t) Enhanced.commonGames
    /\ forall g,
         Enhanced.first_game (VStr t) Enhanced.commonGames = Ok g ->
         g = VNull
            /\ Forall (fun x => includes (toLowerCase t) (toLowerCase x) = false)
                      Enhanced.commonGames
         \/ exists before name after,
              g = VStr name
              /\ Enhanced.commonGames = (before ++ name :: after)%list
              /\ Forall (fun x => includes (toLowerCase t) (toLowerCase x) = false) before
              /\ includes (toLowerCase t) (toLowerCase name) = true.
Proof.
  intros t duration. split; [|split].
  - unfold Proper.check_video, Proper.archive, rbind.
    cbn [get own String.eqb Ascii.eqb Bool.eqb is_str truthy Proper.as_string].
    now rewrite toLowerCase_idempotent.
  - apply first_game_lower.
  - intros g. apply first_game_first.
Qed.
